(** * ImuProt: validation of IMU telemetry packets

    A shallow embedding of [ImuProt.h] (CRC32 engine, packet layout,
    packet validator, temperature converter) and of the hex ingestion
    routine of the example driver, followed by the properties proved
    about them.

    Conventions.
    - A C buffer is a [list byte]; a read outside the list has no defined
      result and is modelled by [None].
    - Unsigned C integers are values of [Z]; every conversion to a
      narrower type is written out as a reduction modulo [2^w].
    - Multi-byte struct members are read in the byte order of a
      little-endian host (the wire order of the protocol).
    - [float] is IEEE-754 binary32, evaluated at its own precision
      (round to nearest, ties to even), through [SpecFloat]. *)

From Stdlib Require Import ZArith List Bool Lia Strings.Byte String Ascii.
From Stdlib Require Import Floats.SpecFloat.
Import ListNotations.

Local Open Scope Z_scope.

(** ** Fixed-width integers *)

Definition u8 (z : Z) : Z := z mod 2 ^ 8.
Definition u16 (z : Z) : Z := z mod 2 ^ 16.
Definition u32 (z : Z) : Z := z mod 2 ^ 32.

Definition in_u8 (z : Z) : Prop := 0 <= z < 2 ^ 8.
Definition in_u32 (z : Z) : Prop := 0 <= z < 2 ^ 32.

Definition byte_to_Z (b : byte) : Z := Z.of_N (Byte.to_N b).

(** ** Option as the monad of defined behaviour *)

Definition bind {A B : Type} (m : option A) (k : A -> option B) : option B :=
  match m with
  | Some a => k a
  | None => None
  end.

Notation "x <- m ;; k" := (bind m (fun x => k))
  (at level 61, m at next level, right associativity).

(** ** Buffer reads *)

(** [buff[off]] for a [const uint8_t *buff]. *)
Definition read_u8 (buff : list byte) (off : nat) : option Z :=
  option_map byte_to_Z (nth_error buff off).

(** A [uint16_t] member stored at byte offset [off]. *)
Definition read_u16 (buff : list byte) (off : nat) : option Z :=
  b0 <- read_u8 buff off ;;
  b1 <- read_u8 buff (off + 1) ;;
  Some (Z.lor b0 (Z.shiftl b1 8)).

(** A [uint32_t] member stored at byte offset [off]. *)
Definition read_u32 (buff : list byte) (off : nat) : option Z :=
  b0 <- read_u8 buff off ;;
  b1 <- read_u8 buff (off + 1) ;;
  b2 <- read_u8 buff (off + 2) ;;
  b3 <- read_u8 buff (off + 3) ;;
  Some (Z.lor b0 (Z.lor (Z.shiftl b1 8) (Z.lor (Z.shiftl b2 16) (Z.shiftl b3 24)))).

(** ** Protocol constants *)

Definition IMU_PROT_HEADER : Z := 0x9574.
Definition CRC32_INITIAL : Z := 0xFFFFFFFF.
Definition CRC32_POLYNOM : Z := 0xEDB88320.

(** ** CRC32, bit-wise build ([SOFT_CRC]) *)

Module SoftCrc.

(** One turn of the inner [for (j = 0; j < 8; j++)] body. *)
Definition crc_bit (crc : Z) : Z :=
  if negb (Z.land crc 1 =? 0)
  then u32 (Z.lxor (Z.shiftr crc 1) CRC32_POLYNOM)
  else Z.shiftr crc 1.

(** The inner loop, [j] turns left to run. *)
Fixpoint crc_bits (j : nat) (crc : Z) : Z :=
  match j with
  | O => crc
  | S j' => crc_bits j' (crc_bit crc)
  end.

(** The outer loop: [n] turns left, [buff] is the advancing pointer. *)
Fixpoint crc_loop (buff : list byte) (n : nat) (crc : Z) {struct n}
  : option Z :=
  match n with
  | O => Some crc
  | S n' =>
      match buff with
      | [] => None
      | b :: buff' => crc_loop buff' n' (crc_bits 8 (Z.lxor crc (byte_to_Z b)))
      end
  end.

Definition protCRC32 (buff : list byte) (len : Z) : option Z :=
  crc <- crc_loop buff (Z.to_nat (u16 len)) (u32 CRC32_INITIAL) ;;
  Some (u32 (Z.lxor crc CRC32_INITIAL)).

End SoftCrc.

(** ** CRC32, table-driven build (the default) *)

Definition crc32_ccitt_table : list Z :=
  [ 0x00000000; 0x77073096; 0xee0e612c; 0x990951ba; 0x076dc419;
    0x706af48f; 0xe963a535; 0x9e6495a3; 0x0edb8832; 0x79dcb8a4;
    0xe0d5e91e; 0x97d2d988; 0x09b64c2b; 0x7eb17cbd; 0xe7b82d07;
    0x90bf1d91; 0x1db71064; 0x6ab020f2; 0xf3b97148; 0x84be41de;
    0x1adad47d; 0x6ddde4eb; 0xf4d4b551; 0x83d385c7; 0x136c9856;
    0x646ba8c0; 0xfd62f97a; 0x8a65c9ec; 0x14015c4f; 0x63066cd9;
    0xfa0f3d63; 0x8d080df5; 0x3b6e20c8; 0x4c69105e; 0xd56041e4;
    0xa2677172; 0x3c03e4d1; 0x4b04d447; 0xd20d85fd; 0xa50ab56b;
    0x35b5a8fa; 0x42b2986c; 0xdbbbc9d6; 0xacbcf940; 0x32d86ce3;
    0x45df5c75; 0xdcd60dcf; 0xabd13d59; 0x26d930ac; 0x51de003a;
    0xc8d75180; 0xbfd06116; 0x21b4f4b5; 0x56b3c423; 0xcfba9599;
    0xb8bda50f; 0x2802b89e; 0x5f058808; 0xc60cd9b2; 0xb10be924;
    0x2f6f7c87; 0x58684c11; 0xc1611dab; 0xb6662d3d; 0x76dc4190;
    0x01db7106; 0x98d220bc; 0xefd5102a; 0x71b18589; 0x06b6b51f;
    0x9fbfe4a5; 0xe8b8d433; 0x7807c9a2; 0x0f00f934; 0x9609a88e;
    0xe10e9818; 0x7f6a0dbb; 0x086d3d2d; 0x91646c97; 0xe6635c01;
    0x6b6b51f4; 0x1c6c6162; 0x856530d8; 0xf262004e; 0x6c0695ed;
    0x1b01a57b; 0x8208f4c1; 0xf50fc457; 0x65b0d9c6; 0x12b7e950;
    0x8bbeb8ea; 0xfcb9887c; 0x62dd1ddf; 0x15da2d49; 0x8cd37cf3;
    0xfbd44c65; 0x4db26158; 0x3ab551ce; 0xa3bc0074; 0xd4bb30e2;
    0x4adfa541; 0x3dd895d7; 0xa4d1c46d; 0xd3d6f4fb; 0x4369e96a;
    0x346ed9fc; 0xad678846; 0xda60b8d0; 0x44042d73; 0x33031de5;
    0xaa0a4c5f; 0xdd0d7cc9; 0x5005713c; 0x270241aa; 0xbe0b1010;
    0xc90c2086; 0x5768b525; 0x206f85b3; 0xb966d409; 0xce61e49f;
    0x5edef90e; 0x29d9c998; 0xb0d09822; 0xc7d7a8b4; 0x59b33d17;
    0x2eb40d81; 0xb7bd5c3b; 0xc0ba6cad; 0xedb88320; 0x9abfb3b6;
    0x03b6e20c; 0x74b1d29a; 0xead54739; 0x9dd277af; 0x04db2615;
    0x73dc1683; 0xe3630b12; 0x94643b84; 0x0d6d6a3e; 0x7a6a5aa8;
    0xe40ecf0b; 0x9309ff9d; 0x0a00ae27; 0x7d079eb1; 0xf00f9344;
    0x8708a3d2; 0x1e01f268; 0x6906c2fe; 0xf762575d; 0x806567cb;
    0x196c3671; 0x6e6b06e7; 0xfed41b76; 0x89d32be0; 0x10da7a5a;
    0x67dd4acc; 0xf9b9df6f; 0x8ebeeff9; 0x17b7be43; 0x60b08ed5;
    0xd6d6a3e8; 0xa1d1937e; 0x38d8c2c4; 0x4fdff252; 0xd1bb67f1;
    0xa6bc5767; 0x3fb506dd; 0x48b2364b; 0xd80d2bda; 0xaf0a1b4c;
    0x36034af6; 0x41047a60; 0xdf60efc3; 0xa867df55; 0x316e8eef;
    0x4669be79; 0xcb61b38c; 0xbc66831a; 0x256fd2a0; 0x5268e236;
    0xcc0c7795; 0xbb0b4703; 0x220216b9; 0x5505262f; 0xc5ba3bbe;
    0xb2bd0b28; 0x2bb45a92; 0x5cb36a04; 0xc2d7ffa7; 0xb5d0cf31;
    0x2cd99e8b; 0x5bdeae1d; 0x9b64c2b0; 0xec63f226; 0x756aa39c;
    0x026d930a; 0x9c0906a9; 0xeb0e363f; 0x72076785; 0x05005713;
    0x95bf4a82; 0xe2b87a14; 0x7bb12bae; 0x0cb61b38; 0x92d28e9b;
    0xe5d5be0d; 0x7cdcefb7; 0x0bdbdf21; 0x86d3d2d4; 0xf1d4e242;
    0x68ddb3f8; 0x1fda836e; 0x81be16cd; 0xf6b9265b; 0x6fb077e1;
    0x18b74777; 0x88085ae6; 0xff0f6a70; 0x66063bca; 0x11010b5c;
    0x8f659eff; 0xf862ae69; 0x616bffd3; 0x166ccf45; 0xa00ae278;
    0xd70dd2ee; 0x4e048354; 0x3903b3c2; 0xa7672661; 0xd06016f7;
    0x4969474d; 0x3e6e77db; 0xaed16a4a; 0xd9d65adc; 0x40df0b66;
    0x37d83bf0; 0xa9bcae53; 0xdebb9ec5; 0x47b2cf7f; 0x30b5ffe9;
    0xbdbdf21c; 0xcabac28a; 0x53b39330; 0x24b4a3a6; 0xbad03605;
    0xcdd70693; 0x54de5729; 0x23d967bf; 0xb3667a2e; 0xc4614ab8;
    0x5d681b02; 0x2a6f2b94; 0xb40bbe37; 0xc30c8ea1; 0x5a05df1b;
    0x2d02ef8d ].

(** [crc32_ccitt_table[idx]]; every index the code forms is below 256. *)
Definition table_at (idx : Z) : Z := nth (Z.to_nat idx) crc32_ccitt_table 0.

(** The body of the table-driven loop for the byte [b = buff[i]]. *)
Definition table_step (crc32 b : Z) : Z :=
  Z.lxor (table_at (Z.land (Z.lxor crc32 b) 0xff)) (Z.shiftr crc32 8).

(** The loop [for (i = 0; i < len; i++)], [n] turns left, index [i]. *)
Fixpoint table_loop (buff : list byte) (i n : nat) (crc32 : Z) : option Z :=
  match n with
  | O => Some crc32
  | S n' =>
      b <- read_u8 buff i ;;
      table_loop buff (S i) n' (table_step crc32 b)
  end.

Definition protCRC32 (buff : list byte) (len : Z) : option Z :=
  crc32 <- table_loop buff 0 (Z.to_nat (u16 len)) (u32 CRC32_INITIAL) ;;
  Some (u32 (Z.lxor crc32 CRC32_INITIAL)).

(** ** The CRC32 the specification names

    A second definition, following the specification's words rather than
    the code: the reflected CRC32 with polynomial 0xEDB88320, register
    initialised to 0xFFFFFFFF and complemented at the end, as a bit-serial
    shift register fed with the message bits, least significant bit of
    each octet first. *)

Module Reference.

(** The [k] low bits of [b], least significant first. *)
Fixpoint lsb_first (k : nat) (b : Z) : list bool :=
  match k with
  | O => []
  | S k' => Z.odd b :: lsb_first k' (Z.shiftr b 1)
  end.

Definition octet_bits (b : Z) : list bool := lsb_first 8 b.

Definition shift_in (reg : Z) (bit : bool) : Z :=
  if xorb (Z.odd reg) bit
  then Z.lxor (Z.shiftr reg 1) 0xEDB88320
  else Z.shiftr reg 1.

Definition message_bits (data : list byte) : list bool :=
  flat_map (fun b => octet_bits (byte_to_Z b)) data.

Definition crc32 (data : list byte) : Z :=
  Z.lxor (fold_left shift_in (message_bits data) 0xFFFFFFFF) 0xFFFFFFFF.

End Reference.

(** The customary check input, the nine ASCII digits. *)
Definition check_input : list byte := list_byte_of_string "123456789".

(** ** Packet model: the declared types and their layout *)

#[local] Set Warnings "-register-all".

Inductive ctype : Type :=
| Tint (signed : bool) (bytes : nat)
| Tarray (elt : ctype) (n : nat)
| Tstruct (packed : bool) (fields : list (string * ctype))
| Tunion (packed : bool) (members : list (string * ctype))
| Tbitfields (unit_bytes : nat) (fields : list (string * nat)).

Definition uint8_t : ctype := Tint false 1.
Definition uint16_t : ctype := Tint false 2.
Definition uint32_t : ctype := Tint false 4.
Definition int32_t : ctype := Tint true 4.

Definition round_up (n a : nat) : nat := ((n + a - 1) / a * a)%nat.

Fixpoint alignof (t : ctype) : nat :=
  match t with
  | Tint _ n => n
  | Tarray e _ => alignof e
  | Tstruct packed fs | Tunion packed fs =>
      if packed then 1%nat
      else (fix go (fs : list (string * ctype)) : nat :=
              match fs with
              | [] => 1%nat
              | (_, t) :: r => Nat.max (alignof t) (go r)
              end) fs
  | Tbitfields u _ => u
  end.

(** Alignment of a member: 1 inside a packed aggregate. *)
Definition member_align (packed : bool) (t : ctype) : nat :=
  if packed then 1%nat else alignof t.

Fixpoint sizeof (t : ctype) : nat :=
  match t with
  | Tint _ n => n
  | Tarray e n => (n * sizeof e)%nat
  | Tstruct packed fs =>
      round_up
        ((fix go (cur : nat) (fs : list (string * ctype)) : nat :=
            match fs with
            | [] => cur
            | (_, t) :: r =>
                go (round_up cur (member_align packed t) + sizeof t)%nat r
            end) 0%nat fs)
        (alignof (Tstruct packed fs))
  | Tunion packed ms =>
      round_up
        ((fix go (ms : list (string * ctype)) : nat :=
            match ms with
            | [] => 0%nat
            | (_, t) :: r => Nat.max (sizeof t) (go r)
            end) ms)
        (alignof (Tunion packed ms))
  | Tbitfields u fs =>
      let bits := fold_right (fun f acc => (snd f + acc)%nat) 0%nat fs in
      (round_up bits (8 * u) / 8)%nat
  end.

(** Offset and type of the member [name] among [fs], laid out from [cur]. *)
Fixpoint struct_member (packed : bool) (cur : nat)
         (fs : list (string * ctype)) (name : string) : option (nat * ctype) :=
  match fs with
  | [] => None
  | (n, t) :: r =>
      let off := round_up cur (member_align packed t) in
      if String.eqb n name then Some (off, t)
      else struct_member packed (off + sizeof t)%nat r name
  end.

Fixpoint union_member (ms : list (string * ctype)) (name : string)
  : option (nat * ctype) :=
  match ms with
  | [] => None
  | (n, t) :: r => if String.eqb n name then Some (0%nat, t) else union_member r name
  end.

(** The member reached along a path of member names, with its offset;
    the empty name selects an anonymous member. *)
Fixpoint locate (t : ctype) (path : list string) : option (nat * ctype) :=
  match path with
  | [] => Some (0%nat, t)
  | name :: rest =>
      match
        match t with
        | Tstruct packed fs => struct_member packed 0 fs name
        | Tunion _ ms => union_member ms name
        | _ => None
        end
      with
      | Some (off, t') =>
          option_map (fun m => (off + fst m, snd m)%nat) (locate t' rest)
      | None => None
      end
  end.

Definition offsetof (t : ctype) (path : list string) : option nat :=
  option_map fst (locate t path).

(** Offset and size in bytes of a member. *)
Definition extent (t : ctype) (path : list string) : option (nat * nat) :=
  option_map (fun m => (fst m, sizeof (snd m))) (locate t path).

Section Layout.

(** [PACK_IT]: [true] where it expands to the packed attribute, [false]
    on [WIN32] where it expands to nothing. *)
Variable PACK_IT : bool.

Definition status_bits : ctype :=
  Tbitfields 2
    [ ("error", 1); ("thermostatNotReady", 1); ("gyroNotReady", 1);
      ("overVoltage", 1); ("underVoltage", 1);
      ("overTemperature", 1); ("underTemperature", 1);
      ("ppsNotLocked", 1);
      ("gyroXOutOfRange", 1); ("gyroYOutOfRange", 1); ("gyroZOutOfRange", 1);
      ("accelXOutOfRange", 1); ("accelYOutOfRange", 1); ("accelZOutOfRange", 1);
      ("reserved", 2) ]%string%nat.

Definition ImuData_t : ctype :=
  Tstruct PACK_IT
    [ ("mux", uint32_t);
      ("", Tunion false [ ("", status_bits); ("flags", uint16_t) ]);
      ("temperature", uint16_t);
      ("gyro", Tarray int32_t 3);
      ("accl", Tarray int32_t 3) ]%string.

Definition ImuProt_t : ctype :=
  Tstruct PACK_IT
    [ ("header", uint16_t);
      ("sequencer", uint8_t);
      ("ff_sequencer", uint8_t);
      ("data", ImuData_t);
      ("crc32", uint32_t) ]%string.

End Layout.

(** Offset of a member of [ImuProt_t] in the packed build. *)
Definition prot_offset (path : list string) : nat :=
  match offsetof (ImuProt_t true) path with
  | Some off => off
  | None => 0%nat
  end.

(** ** Packet validator *)

Inductive ImuProtError_t : Type :=
| IMU_PROT_OK
| IMU_PROT_BAD_HEADER
| IMU_PROT_BAD_SEQUENCER
| IMU_PROT_BAD_CRC.

(** The numeric values of the enumerators. *)
Definition error_code (e : ImuProtError_t) : Z :=
  match e with
  | IMU_PROT_OK => 0
  | IMU_PROT_BAD_HEADER => 1
  | IMU_PROT_BAD_SEQUENCER => 2
  | IMU_PROT_BAD_CRC => 3
  end.

(** [prot->header], [prot->sequencer], [prot->ff_sequencer], [prot->crc32]
    for [prot = (const ImuProt_t * )buffer]. *)
Definition prot_header (buffer : list byte) : option Z :=
  read_u16 buffer (prot_offset ["header"%string]).
Definition prot_sequencer (buffer : list byte) : option Z :=
  read_u8 buffer (prot_offset ["sequencer"%string]).
Definition prot_ff_sequencer (buffer : list byte) : option Z :=
  read_u8 buffer (prot_offset ["ff_sequencer"%string]).
Definition prot_crc32 (buffer : list byte) : option Z :=
  read_u32 buffer (prot_offset ["crc32"%string]).

(** [sizeof(ImuProt_t) - sizeof(uint32_t)], the length handed to the CRC. *)
Definition crc_span : Z :=
  Z.of_nat (sizeof (ImuProt_t true)) - Z.of_nat (sizeof uint32_t).

Section Validator.

(** The [protCRC32] selected at compile time. *)
Variable crc_fn : list byte -> Z -> option Z.

Definition checkImuProtBuffer_with (buffer : list byte)
  : option ImuProtError_t :=
  header <- prot_header buffer ;;
  if negb (IMU_PROT_HEADER =? header) then Some IMU_PROT_BAD_HEADER
  else
    ff <- prot_ff_sequencer buffer ;;
    let sequencer := u8 (Z.lnot ff) in
    seq <- prot_sequencer buffer ;;
    if negb (seq =? sequencer) then Some IMU_PROT_BAD_SEQUENCER
    else
      crc <- crc_fn buffer crc_span ;;
      stored <- prot_crc32 buffer ;;
      if negb (crc =? stored) then Some IMU_PROT_BAD_CRC
      else Some IMU_PROT_OK.

End Validator.

(** The default build and the [SOFT_CRC] build. *)
Definition checkImuProtBuffer : list byte -> option ImuProtError_t :=
  checkImuProtBuffer_with protCRC32.

Module SoftBuild.
Definition checkImuProtBuffer : list byte -> option ImuProtError_t :=
  checkImuProtBuffer_with SoftCrc.protCRC32.
End SoftBuild.

(** ** The three checks, as the specification words them

    Stated on the bytes of the wire format, with the offsets and the
    constant of the specification's packet table, independently of the
    validator's code. *)

Module Wire.

Definition packet_size : nat := 40.

(** The 8-bit bitwise complement. *)
Definition complement8 (b : Z) : Z := Z.lxor b 0xFF.

(** Little-endian 16-bit field at offset 0 equal to 0x9574. *)
Definition header_ok (buffer : list byte) : bool :=
  match nth_error buffer 0, nth_error buffer 1 with
  | Some b0, Some b1 => byte_to_Z b0 + 256 * byte_to_Z b1 =? 0x9574
  | _, _ => false
  end.

(** Byte at offset 2 equal to the complement of the byte at offset 3. *)
Definition sequencer_ok (buffer : list byte) : bool :=
  match nth_error buffer 2, nth_error buffer 3 with
  | Some s, Some f => byte_to_Z s =? complement8 (byte_to_Z f)
  | _, _ => false
  end.

(** Little-endian 32-bit field at offset 36. *)
Definition stored_crc (buffer : list byte) : option Z :=
  match firstn 4 (skipn 36 buffer) with
  | [b0; b1; b2; b3] =>
      Some (byte_to_Z b0 + 2 ^ 8 * byte_to_Z b1
            + 2 ^ 16 * byte_to_Z b2 + 2 ^ 24 * byte_to_Z b3)
  | _ => None
  end.

(** The CRC32 of the bytes [0, 36), equal to the stored field. *)
Definition crc_ok (buffer : list byte) : bool :=
  match protCRC32 (firstn 36 buffer) 36, stored_crc buffer with
  | Some crc, Some stored => crc =? stored
  | _, _ => false
  end.

(** The verdict of the linear state machine: header, then sequencer
    redundancy, then integrity; the first failing check is reported. *)
Definition verdict (buffer : list byte) : ImuProtError_t :=
  if negb (header_ok buffer) then IMU_PROT_BAD_HEADER
  else if negb (sequencer_ok buffer) then IMU_PROT_BAD_SEQUENCER
  else if negb (crc_ok buffer) then IMU_PROT_BAD_CRC
  else IMU_PROT_OK.

End Wire.

(** ** Hex ingestion of the example driver *)

Definition byte_of_Z (z : Z) : byte :=
  match Byte.of_N (Z.to_N (u8 z)) with
  | Some b => b
  | None => x00
  end.

Definition hex_digit (c : ascii) : option Z :=
  let n := Z.of_nat (nat_of_ascii c) in
  if (48 <=? n) && (n <=? 57) then Some (n - 48)
  else if (97 <=? n) && (n <=? 102) then Some (n - 87)
  else if (65 <=? n) && (n <=? 70) then Some (n - 55)
  else None.

(** [isspace] in the C locale. *)
Definition is_space (c : ascii) : bool :=
  let n := Z.of_nat (nat_of_ascii c) in
  (n =? 32) || ((9 <=? n) && (n <=? 13)).

(** [strtol(byteStr, NULL, 16)] for the three-character array
    [{c0, c1, 0}]: blanks and a sign may precede the digits, and the
    longest run of hexadecimal digits is converted. *)
Definition strtol16 (c0 c1 : ascii) : Z :=
  match hex_digit c0, hex_digit c1 with
  | Some d0, Some d1 => 16 * d0 + d1
  | Some d0, None => d0
  | None, Some d1 =>
      if is_space c0 then d1
      else if Ascii.eqb c0 "+"%char then d1
      else if Ascii.eqb c0 "-"%char then - d1
      else 0
  | None, None => 0
  end.

(** The bytes [hexStringToByteArray] stores, [strLen / 2] of them: one per
    pair of characters, a last unpaired character being left out. The C
    string ends at its first zero character. *)
Fixpoint hexStringToByteArray (hexString : string) : list byte :=
  match hexString with
  | String c0 (String c1 rest) =>
      if Ascii.eqb c0 zero || Ascii.eqb c1 zero then []
      else byte_of_Z (strtol16 c0 c1) :: hexStringToByteArray rest
  | _ => []
  end.

(** The first test vector of [main]. *)
Definition sample_packet_hex : string :=
  "74951EE10000000000008179CAF6FFFF85FCFFFFC801000079ECFFFFDCE3FFFFF9C30900BA11DF0F".

Definition sample_packet : list byte := hexStringToByteArray sample_packet_hex.

(** The three packets [main] marks as broken: a bit flipped in the header,
    in the sequencer complement, in the payload. *)
Definition broken_header_hex : string :=
  "749422DD0000000000007F7912EFFFFF99F4FFFFFEF9FFFFBFEAFFFFAADCFFFFB5CA0900C8E47F2F".
Definition broken_sequencer_hex : string :=
  "749522CD0000000000007F7912EFFFFF99F4FFFFFEF9FFFFBFEAFFFFAADCFFFFB5CA0900C8E47F2F".
Definition broken_payload_hex : string :=
  "749522DD0000100000007F7912EFFFFF99F4FFFFFEF9FFFFBFEAFFFFAADCFFFFB5CA0900C8E47F2F".

(** The sample packet with its header byte changed, and with its sequencer
    complement changed, the CRC field recomputed for the changed content. *)
Definition resealed_bad_header : list byte :=
  hexStringToByteArray
    "75951EE10000000000008179CAF6FFFF85FCFFFFC801000079ECFFFFDCE3FFFFF9C309002FC5AF9A".
Definition resealed_bad_sequencer : list byte :=
  hexStringToByteArray
    "74951EE00000000000008179CAF6FFFF85FCFFFFC801000079ECFFFFDCE3FFFFF9C3090049812D39".

(** ** Temperature converter

    [float] is binary32: 24 bits of precision, infinities at exponent 128. *)

Definition f32_add : spec_float -> spec_float -> spec_float := SFadd 24 128.
Definition f32_mul : spec_float -> spec_float -> spec_float := SFmul 24 128.
Definition f32_div : spec_float -> spec_float -> spec_float := SFdiv 24 128.
Definition f32_ltb : spec_float -> spec_float -> bool := SFltb.

(** Conversion of an integer constant to [float]. *)
Definition f32_of_Z (z : Z) : spec_float := binary_normalize 24 128 z 0 false.

(** [273.15f], the binary32 number nearest to 273.15:
    8950579 * 2^-15 = 273.149993896484375. *)
Definition KELVIN : spec_float := S754_finite false 8950579 (-15).

(** [(float)0.5] *)
Definition f32_half : spec_float := binary_normalize 24 128 1 (-1) false.

(** The integral part of [m * 2^e]. *)
Definition magnitude (m : positive) (e : Z) : Z :=
  match e with
  | Z0 => Zpos m
  | Zpos _ => Zpos m * 2 ^ e
  | Zneg _ => Zpos m / 2 ^ (- e)
  end.

(** The integral part of a float, rounding toward zero; none for an
    infinity or a NaN. *)
Definition f32_trunc (x : spec_float) : option Z :=
  match x with
  | S754_zero _ => Some 0
  | S754_finite s m e => Some (cond_Zopp s (magnitude m e))
  | S754_infinity _ | S754_nan => None
  end.

(** [(uint16_t)x] as the C standard defines it: the integral part when
    [uint16_t] can represent it, no defined result otherwise. *)
Definition cast_u16 (x : spec_float) : option Z :=
  z <- f32_trunc x ;;
  if (0 <=? z) && (z <? 2 ^ 16) then Some z else None.

(** The conversion of a float to a 32-bit integer that gcc emits on
    x86-64 for [(uint16_t)x], the instruction [cvttss2si]: the integral
    part when [int32_t] can represent it, and 0x80000000 for any other
    integral part, for an infinity and for a NaN. *)
Definition cvttss2si (x : spec_float) : Z :=
  match f32_trunc x with
  | Some t => if (- 2 ^ 31 <=? t) && (t <? 2 ^ 31) then t else - 2 ^ 31
  | None => - 2 ^ 31
  end.

(** [(uint16_t)x] as that build performs it: the low 16 bits of the
    32-bit integer. Standard C defines the result only where [cast_u16]
    does; elsewhere this is what one compiler does, not what the source
    promises. *)
Definition cast_u16_wrap (x : spec_float) : option Z :=
  Some (u16 (cvttss2si x)).

(** The value of [c] when [tempToKelvin] reaches its [return]. *)
Definition tempToKelvin_scaled (c : spec_float) : spec_float :=
  let c := f32_add c KELVIN in
  let c := f32_mul c (f32_of_Z 100) in
  f32_add c f32_half.

Definition tempToKelvin_clamped (c : spec_float) : spec_float :=
  let c := tempToKelvin_scaled c in
  if f32_ltb c (f32_of_Z 0) then f32_of_Z 0 else c.

Definition tempToKelvin (c : spec_float) : option Z :=
  cast_u16 (tempToKelvin_clamped c).

(** [tempToKelvin] as built by gcc for x86-64. *)
Definition tempToKelvin_wrap (c : spec_float) : option Z :=
  cast_u16_wrap (tempToKelvin_clamped c).

(** ** The conversion the specification words

    A second definition, following the specification's formula rather than
    the code: [round((celsius + 273.15) * 100)] in exact arithmetic on the
    value of the input, rounding half up, clamped at zero. For the input
    [v = (-1)^s * m * 2^e] it is
    [floor (100 v + 27315 + 1/2) = 27315 + floor ((200 v + 1) / 2)]. *)

Module Exact.

Definition round_scaled (c : spec_float) : option Z :=
  match c with
  | S754_zero _ => Some 27315
  | S754_finite s m e =>
      let n := cond_Zopp s (Zpos m) in
      Some (27315 +
            match e with
            | Z0 => 100 * n
            | Zpos _ => 100 * n * 2 ^ e
            | Zneg _ => (200 * n + 2 ^ (- e)) / 2 ^ (1 - e)
            end)
  | S754_infinity _ | S754_nan => None
  end.

Definition centikelvin (c : spec_float) : option Z :=
  option_map (Z.max 0) (round_scaled c).

End Exact.

(** ** Corrupted buffers

    Ways of damaging a buffer, for the statements about what the
    validator detects. *)

Definition xor_byte (a e : byte) : byte :=
  byte_of_Z (Z.lxor (byte_to_Z a) (byte_to_Z e)).

(** [buffer] with the error pattern [e] added bit by bit; where [e] ends
    the rest of [buffer] is left as it is. *)
Fixpoint xor_bytes (buffer e : list byte) : list byte :=
  match buffer, e with
  | b :: buffer', x :: e' => xor_byte b x :: xor_bytes buffer' e'
  | _, [] => buffer
  | [], _ => []
  end.

(** [buffer] with bit [i] flipped, bit 0 being the least significant bit
    of the first byte. *)
Fixpoint flip_bit (buffer : list byte) (i : nat) : list byte :=
  match buffer with
  | [] => []
  | b :: rest =>
      if (i <? 8)%nat
      then byte_of_Z (Z.lxor (byte_to_Z b) (2 ^ Z.of_nat i)) :: rest
      else b :: flip_bit rest (i - 8)
  end.

(** The all-zero packet, on which flipped bits make an error pattern. *)
Definition no_error : list byte := repeat x00 Wire.packet_size.

(** The loop of [protCRC32] started from a zero register, without the
    final complement: the part of the checksum that is linear in the
    data. *)
Definition crc_linear (e : list byte) (len : Z) : option Z :=
  table_loop e 0 (Z.to_nat (u16 len)) 0.

(** What the validator answers to a valid packet damaged by the 40-byte
    error pattern [e], as a function of the pattern alone. *)
Definition error_verdict (e : list byte) : ImuProtError_t :=
  match e with
  | e0 :: e1 :: e2 :: e3 :: _ =>
      if negb ((byte_to_Z e0 =? 0) && (byte_to_Z e1 =? 0))
      then IMU_PROT_BAD_HEADER
      else if negb (byte_to_Z e2 =? byte_to_Z e3)
      then IMU_PROT_BAD_SEQUENCER
      else
        match crc_linear (firstn 36 e) 36, Wire.stored_crc e with
        | Some l, Some stored =>
            if l =? stored then IMU_PROT_OK else IMU_PROT_BAD_CRC
        | _, _ => IMU_PROT_BAD_CRC
        end
  | _ => IMU_PROT_BAD_HEADER
  end.

(** The four bytes of a 32-bit value in wire order. *)
Definition le32 (v : Z) : list byte :=
  map (fun k => byte_of_Z (Z.shiftr v (8 * k))) [0; 1; 2; 3].

(** [CRC32_REMINDER], defined by the header and used nowhere in it. *)
Definition CRC32_REMINDER : Z := 0x2144df1c.

(** The syndrome of a 40-byte error pattern: the linear checksum of its
    first 36 bytes against its last four. A pattern passes the CRC test
    when its syndrome is zero. *)
Definition pattern_syndrome (e : list byte) : Z :=
  match crc_linear (firstn 36 e) 36, Wire.stored_crc e with
  | Some l, Some stored => Z.lxor l stored
  | _, _ => 0
  end.

Fixpoint all_distinct (l : list Z) : bool :=
  match l with
  | [] => true
  | x :: rest => forallb (fun y => negb (x =? y)) rest && all_distinct rest
  end.

(** ** Engineering units *)

Definition f32_sub : spec_float -> spec_float -> spec_float := SFsub 24 128.

(** [0.01f], the binary32 number nearest to 0.01: 10737418 * 2^-30. *)
Definition f32_centi : spec_float := S754_finite false 10737418 (-30).

(** [tempFromKelvin]; the argument is converted to [uint16_t] at the
    call, and every [uint16_t] is a binary32 number. *)
Definition tempFromKelvin (k : Z) : spec_float :=
  f32_sub (f32_mul f32_centi (f32_of_Z (u16 k))) KELVIN.

(** [IMU_PROT_SCALE], [1.0f / 65536]. *)
Definition IMU_PROT_SCALE : spec_float :=
  f32_div (f32_of_Z 1) (f32_of_Z 65536).

(** Conversion to [int32_t] of a value read as [uint32_t]. *)
Definition s32 (z : Z) : Z :=
  let w := u32 z in if w <? 2 ^ 31 then w else w - 2 ^ 32.

(** [floatData]; the argument is converted to [int32_t] at the call and
    to [float], rounding to nearest, for the product. *)
Definition floatData (data : Z) : spec_float :=
  f32_mul IMU_PROT_SCALE (f32_of_Z (s32 data)).

(** A check of [n] successive raw temperatures from [k] on, [c] being
    [tempFromKelvin k]: each converts back to itself and lies strictly
    below the next. *)
Fixpoint kelvin_chain (n : nat) (k : Z) (c : spec_float) : bool :=
  match n with
  | O => true
  | S n' =>
      let next := tempFromKelvin (k + 1) in
      match tempToKelvin c with
      | Some v => v =? k
      | None => false
      end
      && (Nat.eqb n' 0 || f32_ltb c next)
      && kelvin_chain n' (k + 1) next
  end.

(** [x] is exactly the number [num / 2^k]. *)
Definition f32_exactly (x : spec_float) (num k : Z) : Prop :=
  match x with
  | S754_zero _ => num = 0
  | S754_finite s m e =>
      e + k <= 0 /\ cond_Zopp s (Zpos m) = num * 2 ^ (- (e + k))
  | S754_infinity _ | S754_nan => False
  end.

(** ** The example driver *)

(** [strlen]: the number of characters before the first zero character. *)
Fixpoint c_strlen (s : string) : nat :=
  match s with
  | EmptyString => 0
  | String c rest => if Ascii.eqb c zero then 0 else S (c_strlen rest)
  end.

Definition hex_char (n : Z) : ascii :=
  nth (Z.to_nat n) (list_ascii_of_string "0123456789ABCDEF") "0"%char.

(** What the conversion [%02X] of [printByteArray] prints for a byte. *)
Definition format_02X (b : byte) : string :=
  String (hex_char (byte_to_Z b / 16))
    (String (hex_char (byte_to_Z b mod 16)) EmptyString).

(** The bytes of an array spelled with [%02X], one after the other. *)
Fixpoint hex_of_bytes (byteArray : list byte) : string :=
  match byteArray with
  | [] => EmptyString
  | b :: rest => format_02X b ++ hex_of_bytes rest
  end.

(** [ImuProtErrorToString], on the integer value of its argument. *)
Definition ImuProtErrorToString (error : Z) : string :=
  if error =? 0 then "OK."
  else if error =? 1 then "Invalid header!"
  else if error =? 2 then "Invalid sequencer!"
  else if error =? 3 then "CRC validation failed!"
  else "Unknown error.".

(** A local array after [hexStringToByteArray] has stored [written] at
    its start: [stack] is what the array held before, and storing more
    than the array can hold has no defined result. *)
Definition store_bytes (stack written : list byte) : option (list byte) :=
  if (List.length written <=? List.length stack)%nat
  then Some (written ++ skipn (List.length written) stack)
  else None.

(** The members of [imuBuffer->data] the driver prints. *)
Definition prot_temperature (buffer : list byte) : option Z :=
  read_u16 buffer (prot_offset ["data"; "temperature"]%string).
Definition prot_gyro (buffer : list byte) (k : nat) : option Z :=
  read_u32 buffer (prot_offset ["data"; "gyro"]%string + 4 * k).
Definition prot_accl (buffer : list byte) (k : nat) : option Z :=
  read_u32 buffer (prot_offset ["data"; "accl"]%string + 4 * k).

(** The arguments handed to [printf] for one packet, in its order. *)
Record packet_line : Type := {
  ln_header : Z;
  ln_sequencer : Z;
  ln_temperature : spec_float;
  ln_gyro : list spec_float;
  ln_accl : list spec_float;
  ln_crc32 : Z;
  ln_check : Z;
  ln_result : Z;
  ln_text : string
}.

(** What both versions of the driver compute for a buffer, [check] being
    the checksum each computes its own way. *)
Definition packet_fields (buffer : list byte) (check : Z)
  : option packet_line :=
  result <- checkImuProtBuffer buffer ;;
  header <- prot_header buffer ;;
  sequencer <- prot_sequencer buffer ;;
  temperature <- prot_temperature buffer ;;
  gx <- prot_gyro buffer 0 ;;
  gy <- prot_gyro buffer 1 ;;
  gz <- prot_gyro buffer 2 ;;
  ax <- prot_accl buffer 0 ;;
  ay <- prot_accl buffer 1 ;;
  az <- prot_accl buffer 2 ;;
  crc32 <- prot_crc32 buffer ;;
  Some {| ln_header := header;
          ln_sequencer := sequencer;
          ln_temperature := tempFromKelvin temperature;
          ln_gyro := [floatData gx; floatData gy; floatData gz];
          ln_accl := [floatData ax; floatData ay; floatData az];
          ln_crc32 := crc32;
          ln_check := check;
          ln_result := error_code result;
          ln_text := ImuProtErrorToString (error_code result) |}.

(** The first version: a 128-byte array, the check value summed over
    [size - 4] bytes, [size] printed first. The difference is formed in
    [size_t], taken here as 64 bits wide; the [unsigned short] parameter
    keeps its low 16 bits, which do not depend on that width. *)
Module DriverV1.

Definition parsePacket (stack : list byte) (packet : string)
  : option (Z * packet_line) :=
  let written := hexStringToByteArray packet in
  let size := Z.of_nat (List.length written) in
  buffer <- store_bytes stack written ;;
  crc32 <- protCRC32 buffer ((size - 4) mod 2 ^ 64) ;;
  line <- packet_fields buffer crc32 ;;
  Some (size, line).

End DriverV1.

(** The second version: a 256-byte array handed to [printPacket], the
    check value summed over [sizeof(ImuProt_t) - 4] bytes, the sequencer
    complement printed after the sequencer. *)
Module DriverV2.

Definition printPacket (buffer : list byte) : option (Z * packet_line) :=
  crc32 <- protCRC32 buffer (Z.of_nat (sizeof (ImuProt_t true)) - 4) ;;
  line <- packet_fields buffer crc32 ;;
  ff <- prot_ff_sequencer buffer ;;
  Some (ff, line).

Definition parsePacket (stack : list byte) (packetHex : string)
  : option (Z * packet_line) :=
  buffer <- store_bytes stack (hexStringToByteArray packetHex) ;;
  printPacket buffer.

End DriverV2.

(** ** The multiplexed identity block *)

Definition int16_t : ctype := Tint true 2.

Definition version_bits : ctype :=
  Tbitfields 2 [ ("build", 8); ("minor", 5); ("major", 3) ]%string%nat.

Definition ImuDataMux_t (PACK_IT : bool) : ctype :=
  Tunion PACK_IT
    [ ("", Tstruct PACK_IT
             [ ("serialNoHi", uint32_t);
               ("rev", int32_t);
               ("tempExt", int32_t);
               ("tempInt", int32_t);
               ("presExt", int32_t);
               ("power", int32_t);
               ("serialId", uint32_t);
               ("humanSerial", uint32_t);
               ("current", int32_t);
               ("gitShort", uint32_t);
               ("", Tunion false [ ("version", uint16_t); ("", version_bits) ]);
               ("revision", int16_t);
               ("buildDate", uint16_t);
               ("hwType", uint16_t);
               ("packetRate", uint16_t);
               ("reserved", uint16_t) ]);
      ("ui32", Tarray uint32_t 32);
      ("ui16", Tarray uint16_t 0);
      ("ui8", Tarray uint8_t 0) ]%string.

(** The [n] low octets of [z] in wire order. *)
Fixpoint le_bytes (n : nat) (z : Z) : list byte :=
  match n with
  | O => []
  | S n' => byte_of_Z z :: le_bytes n' (Z.shiftr z 8)
  end.

(** A burst of damage: the 40-byte error pattern whose bits [k] to
    [k + 31] are those of the 32-bit word [v] and whose other bits are
    zero. *)
Definition burst (k : nat) (v : Z) : list byte :=
  le_bytes Wire.packet_size (Z.shiftl v (Z.of_nat k)).

(** * Properties *)

(** ** Integers and bytes *)

Lemma byte_to_Z_range (b : byte) : in_u8 (byte_to_Z b).
Proof.
  unfold in_u8, byte_to_Z.
  pose proof (Byte.to_N_bounded b) as Hb.
  change (2 ^ 8) with 256. lia.
Qed.

Lemma u32_small (x : Z) : in_u32 x -> u32 x = x.
Proof. intros H. apply Z.mod_small, H. Qed.

Lemma u32_range (x : Z) : in_u32 (u32 x).
Proof. apply Z.mod_pos_bound. reflexivity. Qed.

Lemma in_u8_u32 (x : Z) : in_u8 x -> in_u32 x.
Proof. unfold in_u8, in_u32. change (2 ^ 8) with 256. change (2 ^ 32) with 4294967296. lia. Qed.

Lemma below_pow2_log2 (a n : Z) : 0 <= a -> 0 < n -> (a < 2 ^ n <-> Z.log2 a < n).
Proof.
  intros Ha Hn.
  destruct (Z.eq_dec a 0) as [-> | Hne].
  - split; intros _; [exact Hn | apply Z.pow_pos_nonneg; lia].
  - apply Z.log2_lt_pow2. lia.
Qed.

Lemma lxor_below (a b n : Z) :
  0 < n -> 0 <= a < 2 ^ n -> 0 <= b < 2 ^ n -> 0 <= Z.lxor a b < 2 ^ n.
Proof.
  intros Hn [Ha0 Ha] [Hb0 Hb].
  assert (H0 : 0 <= Z.lxor a b) by (apply Z.lxor_nonneg; tauto).
  split; [exact H0 |].
  apply below_pow2_log2; try assumption.
  apply below_pow2_log2 in Ha; try assumption.
  apply below_pow2_log2 in Hb; try assumption.
  pose proof (Z.log2_lxor a b Ha0 Hb0). lia.
Qed.

Lemma lxor_u32 (a b : Z) : in_u32 a -> in_u32 b -> in_u32 (Z.lxor a b).
Proof. apply lxor_below. reflexivity. Qed.

Lemma shiftr_u32 (a n : Z) : 0 <= n -> in_u32 a -> in_u32 (Z.shiftr a n).
Proof.
  intros Hn [Ha0 Ha]. split.
  - apply Z.shiftr_nonneg, Ha0.
  - rewrite Z.shiftr_div_pow2 by assumption.
    apply Z.le_lt_trans with a; [| exact Ha].
    apply Z.div_le_upper_bound.
    + apply Z.pow_pos_nonneg; lia.
    + assert (1 <= 2 ^ n) by (apply Z.pow_le_mono_r with (b := 0) (c := n) (a := 2) in Hn; lia).
      nia.
Qed.

(** A property of all integers below a bound follows from checking the
    finitely many cases. *)
Lemma below_forall (P : Z -> bool) (n : nat) :
  forallb P (map Z.of_nat (seq 0 n)) = true ->
  forall z, 0 <= z < Z.of_nat n -> P z = true.
Proof.
  intros Hall z Hz.
  rewrite forallb_forall in Hall. apply Hall.
  apply in_map_iff. exists (Z.to_nat z). split; [lia |].
  apply in_seq. lia.
Qed.

Lemma low_bit_odd (x : Z) : (Z.land x 1 =? 0) = negb (Z.odd x).
Proof.
  change 1 with (Z.ones 1). rewrite Z.land_ones by lia.
  change (2 ^ 1) with 2. rewrite Zmod_odd.
  destruct (Z.odd x); reflexivity.
Qed.

(** A word is the exclusive or of its low octet and of the rest. *)
Lemma split_low_octet (x : Z) :
  x = Z.lxor (Z.land x 0xff) (Z.shiftl (Z.shiftr x 8) 8).
Proof.
  rewrite <- Z.ldiff_ones_r by lia.
  change 0xff with (Z.ones 8).
  apply Z.bits_inj'. intros n Hn.
  rewrite Z.lxor_spec, Z.land_spec, Z.ldiff_spec.
  destruct (Z.testbit x n), (Z.testbit (Z.ones 8) n); reflexivity.
Qed.

(** ** The two CRC32 engines agree *)

Module CrcAgreement.
Import SoftCrc.

(** The shift step, with its test and its truncation resolved. *)
Lemma crc_bit_spec (x : Z) :
  in_u32 x ->
  crc_bit x = Z.lxor (Z.shiftr x 1) (if Z.odd x then CRC32_POLYNOM else 0).
Proof.
  intros Hx. unfold crc_bit. rewrite low_bit_odd, negb_involutive.
  destruct (Z.odd x).
  - apply u32_small, lxor_u32.
    + apply shiftr_u32; [lia | exact Hx].
    + unfold in_u32, CRC32_POLYNOM. change (2 ^ 32) with 4294967296. lia.
  - symmetry. apply Z.lxor_0_r.
Qed.

Lemma crc_bit_range (x : Z) : in_u32 x -> in_u32 (crc_bit x).
Proof.
  intros Hx. rewrite crc_bit_spec by assumption.
  apply lxor_u32.
  - apply shiftr_u32; [lia | exact Hx].
  - destruct (Z.odd x); unfold in_u32, CRC32_POLYNOM;
      change (2 ^ 32) with 4294967296; lia.
Qed.

Lemma crc_bits_range (j : nat) (x : Z) : in_u32 x -> in_u32 (crc_bits j x).
Proof.
  revert x. induction j as [| j IH]; intros x Hx; simpl.
  - exact Hx.
  - apply IH, crc_bit_range, Hx.
Qed.

(** The shift step is linear over exclusive or. *)
Lemma crc_bit_lxor (a b : Z) :
  in_u32 a -> in_u32 b ->
  crc_bit (Z.lxor a b) = Z.lxor (crc_bit a) (crc_bit b).
Proof.
  intros Ha Hb.
  rewrite !crc_bit_spec by (try apply lxor_u32; assumption).
  rewrite Z.shiftr_lxor.
  assert (Hodd : Z.odd (Z.lxor a b) = xorb (Z.odd a) (Z.odd b)).
  { rewrite <- !Z.bit0_odd. apply Z.lxor_spec. }
  rewrite Hodd.
  apply Z.bits_inj'. intros n _.
  destruct (Z.odd a), (Z.odd b); simpl;
    rewrite ?Z.lxor_spec, ?Z.bits_0;
    destruct (Z.testbit (Z.shiftr a 1) n), (Z.testbit (Z.shiftr b 1) n),
             (Z.testbit CRC32_POLYNOM n); reflexivity.
Qed.

Lemma crc_bits_lxor (j : nat) (a b : Z) :
  in_u32 a -> in_u32 b ->
  crc_bits j (Z.lxor a b) = Z.lxor (crc_bits j a) (crc_bits j b).
Proof.
  revert a b. induction j as [| j IH]; intros a b Ha Hb; simpl.
  - reflexivity.
  - rewrite crc_bit_lxor by assumption.
    apply IH; apply crc_bit_range; assumption.
Qed.

(** Bits above the low [j] just move down during [j] steps. *)
Lemma crc_bits_high (j : nat) (y : Z) :
  in_u32 (Z.shiftl y (Z.of_nat j)) ->
  crc_bits j (Z.shiftl y (Z.of_nat j)) = y.
Proof.
  induction j as [| j IH]; intros Hy.
  - simpl. apply Z.shiftl_0_r.
  - assert (Hstep : Z.shiftr (Z.shiftl y (Z.of_nat (S j))) 1
                    = Z.shiftl y (Z.of_nat j)).
    { rewrite Z.shiftr_shiftl_l by lia. f_equal. lia. }
    assert (Heven : Z.odd (Z.shiftl y (Z.of_nat (S j))) = false).
    { rewrite <- Z.bit0_odd. apply Z.shiftl_spec_low. lia. }
    cbn [crc_bits]. rewrite crc_bit_spec by assumption.
    rewrite Heven, Z.lxor_0_r, Hstep.
    apply IH. rewrite <- Hstep. apply shiftr_u32; [lia | exact Hy].
Qed.

(** Entry [i] of the table is eight shift steps applied to [i]. *)
Lemma table_entries (i : Z) : 0 <= i < 256 -> crc_bits 8 i = table_at i.
Proof.
  intros Hi. apply Z.eqb_eq.
  apply (below_forall (fun i => crc_bits 8 i =? table_at i) 256);
    [vm_compute; reflexivity | exact Hi].
Qed.

(** One table lookup does the work of eight shift steps. *)
Lemma table_step_bits (crc b : Z) :
  in_u32 crc -> in_u8 b ->
  table_step crc b = crc_bits 8 (Z.lxor crc b).
Proof.
  intros Hc Hb. unfold table_step.
  assert (Hx : in_u32 (Z.lxor crc b)) by (apply lxor_u32; [| apply in_u8_u32]; assumption).
  set (x := Z.lxor crc b) in *.
  assert (Hlow : 0 <= Z.land x 0xff < 256).
  { change 0xff with (Z.ones 8). rewrite Z.land_ones by lia.
    apply Z.mod_pos_bound. reflexivity. }
  assert (Hhigh : in_u32 (Z.shiftl (Z.shiftr x 8) 8)).
  { rewrite Z.shiftl_mul_pow2, Z.shiftr_div_pow2 by lia.
    change (2 ^ 8) with 256. destruct Hx as [Hx0 Hx1].
    pose proof (Z.mul_div_le x 256 ltac:(lia)) as Hle.
    pose proof (Z.div_pos x 256 Hx0 ltac:(lia)) as Hpos.
    unfold in_u32. lia. }
  assert (Hshift : Z.shiftr x 8 = Z.shiftr crc 8).
  { unfold x. rewrite Z.shiftr_lxor.
    replace (Z.shiftr b 8) with 0; [apply Z.lxor_0_r |].
    symmetry. rewrite Z.shiftr_div_pow2 by lia. apply Z.div_small. exact Hb. }
  rewrite (split_low_octet x) at 2.
  rewrite crc_bits_lxor; [| apply in_u8_u32; exact Hlow | exact Hhigh].
  rewrite table_entries by exact Hlow.
  pose proof (crc_bits_high 8 (Z.shiftr x 8) Hhigh) as Hmove.
  change (Z.of_nat 8) with 8 in Hmove.
  rewrite Hmove, Hshift. reflexivity.
Qed.

Lemma table_step_range (crc b : Z) :
  in_u32 crc -> in_u8 b -> in_u32 (table_step crc b).
Proof.
  intros Hc Hb. rewrite table_step_bits by assumption.
  apply crc_bits_range, lxor_u32; [| apply in_u8_u32]; assumption.
Qed.

End CrcAgreement.

Module CrcLoops.
Import CrcAgreement.

Lemma skipn_nth_error {A : Type} (l : list A) (i : nat) (a : A) :
  nth_error l i = Some a -> skipn i l = a :: skipn (S i) l.
Proof.
  revert i. induction l as [| x l IH]; intros [| i] H; simpl in *;
    try discriminate.
  - injection H as ->. reflexivity.
  - apply IH, H.
Qed.

(** The pointer-advancing loop and the indexed loop go through the same
    states, and stop together when the buffer ends early. *)
Lemma loops_agree (buff : list byte) (n : nat) :
  forall (i : nat) (crc : Z),
    in_u32 crc ->
    SoftCrc.crc_loop (skipn i buff) n crc = table_loop buff i n crc.
Proof.
  induction n as [| n IH]; intros i crc Hcrc; simpl.
  - reflexivity.
  - unfold read_u8. destruct (nth_error buff i) as [b |] eqn:Hb; simpl.
    + rewrite (skipn_nth_error _ _ _ Hb).
      rewrite table_step_bits by (try apply byte_to_Z_range; assumption).
      apply IH, crc_bits_range, lxor_u32;
        [assumption | apply in_u8_u32, byte_to_Z_range].
    + apply nth_error_None in Hb.
      rewrite (skipn_all2 _ Hb). reflexivity.
Qed.

Lemma protCRC32_agree (buff : list byte) (len : Z) :
  SoftCrc.protCRC32 buff len = protCRC32 buff len.
Proof.
  unfold SoftCrc.protCRC32, protCRC32.
  rewrite <- (loops_agree buff _ 0 _ (u32_range CRC32_INITIAL)). reflexivity.
Qed.

(** Inside the buffer the loop runs to its end. *)
Lemma table_loop_total (buff : list byte) (n : nat) :
  forall (i : nat) (crc : Z),
    in_u32 crc -> (i + n <= List.length buff)%nat ->
    exists crc', in_u32 crc' /\ table_loop buff i n crc = Some crc'.
Proof.
  induction n as [| n IH]; intros i crc Hcrc Hlen; simpl.
  - exists crc. split; [assumption | reflexivity].
  - unfold read_u8. destruct (nth_error buff i) as [b |] eqn:Hb; simpl.
    + apply IH; [| lia].
      apply table_step_range; [assumption | apply byte_to_Z_range].
    + apply nth_error_None in Hb. lia.
Qed.

Lemma protCRC32_total (buff : list byte) (len : Z) :
  (Z.to_nat (u16 len) <= List.length buff)%nat ->
  exists crc, in_u32 crc /\ protCRC32 buff len = Some crc.
Proof.
  intros Hlen. unfold protCRC32.
  destruct (table_loop_total buff (Z.to_nat (u16 len)) 0 _
              (u32_range CRC32_INITIAL) Hlen)
    as (crc & Hcrc & ->).
  simpl. eexists. split; [apply u32_range | reflexivity].
Qed.

(** The loop reads the bytes of index [i] to [i + n - 1] and no other. *)
Lemma table_loop_firstn (buff : list byte) (n : nat) :
  forall (i : nat) (crc : Z),
    table_loop (firstn (i + n) buff) i n crc = table_loop buff i n crc.
Proof.
  induction n as [| n IH]; intros i crc; simpl.
  - reflexivity.
  - unfold read_u8. rewrite nth_error_firstn.
    replace (i <? i + S n)%nat with true by (symmetry; apply Nat.ltb_lt; lia).
    destruct (nth_error buff i) as [b |]; simpl; [| reflexivity].
    replace (i + S n)%nat with (S i + n)%nat by lia. apply IH.
Qed.

Lemma protCRC32_firstn (buff : list byte) (len : Z) :
  protCRC32 (firstn (Z.to_nat (u16 len)) buff) len = protCRC32 buff len.
Proof.
  unfold protCRC32.
  rewrite (table_loop_firstn buff (Z.to_nat (u16 len)) 0). reflexivity.
Qed.

Lemma u16_le (len : Z) : 0 <= len -> u16 len <= len.
Proof. intros H. unfold u16. apply Z.mod_le; [exact H | reflexivity]. Qed.

End CrcLoops.

(** C4. For every byte sequence and every length within it, the bit-wise
    [protCRC32] of the [SOFT_CRC] build and the table-driven [protCRC32]
    of the default build both return, and return the same 32-bit value. *)
Theorem protCRC32_soft_equals_table (buff : list byte) (len : Z) :
  0 <= len <= Z.of_nat (List.length buff) ->
  exists crc,
    in_u32 crc /\
    SoftCrc.protCRC32 buff len = Some crc /\
    protCRC32 buff len = Some crc.
Proof.
  intros [Hlen0 Hlen].
  assert (Hu : (Z.to_nat (u16 len) <= List.length buff)%nat).
  { pose proof (CrcLoops.u16_le len Hlen0). lia. }
  destruct (CrcLoops.protCRC32_total buff len Hu) as (crc & Hcrc & Heq).
  exists crc. rewrite CrcLoops.protCRC32_agree. auto.
Qed.

Lemma protCRC32_soft_equals_table_witness :
  exists crc,
    in_u32 crc /\
    SoftCrc.protCRC32 check_input 9 = Some crc /\
    protCRC32 check_input 9 = Some crc.
Proof.
  apply (protCRC32_soft_equals_table check_input 9).
  vm_compute. split; discriminate.
Defined.

(** ** The engines compute the CRC32 the specification names *)

Module CrcReference.
Import CrcAgreement.

Lemma shift_in_spec (reg : Z) (bit : bool) :
  Reference.shift_in reg bit
  = Z.lxor (Z.shiftr reg 1)
           (if xorb (Z.odd reg) bit then CRC32_POLYNOM else 0).
Proof.
  unfold Reference.shift_in.
  destruct (xorb (Z.odd reg) bit); [reflexivity |].
  symmetry. apply Z.lxor_0_r.
Qed.

Lemma shift_in_range (reg : Z) (bit : bool) :
  in_u32 reg -> in_u32 (Reference.shift_in reg bit).
Proof.
  intros Hreg. rewrite shift_in_spec. apply lxor_u32.
  - apply shiftr_u32; [lia | exact Hreg].
  - destruct (xorb (Z.odd reg) bit); unfold in_u32, CRC32_POLYNOM;
      change (2 ^ 32) with 4294967296; lia.
Qed.

(** Feeding the low bit of [b] to the register, then adding in the rest
    of [b], is one shift step of the register with [b] added in. *)
Lemma crc_bit_feed (reg b : Z) :
  in_u32 reg -> in_u32 b ->
  SoftCrc.crc_bit (Z.lxor reg b)
  = Z.lxor (Reference.shift_in reg (Z.odd b)) (Z.shiftr b 1).
Proof.
  intros Hreg Hb.
  rewrite crc_bit_spec by (apply lxor_u32; assumption).
  rewrite shift_in_spec, Z.shiftr_lxor.
  assert (Hodd : Z.odd (Z.lxor reg b) = xorb (Z.odd reg) (Z.odd b)).
  { rewrite <- !Z.bit0_odd. apply Z.lxor_spec. }
  rewrite Hodd.
  apply Z.bits_inj'. intros n _.
  rewrite !Z.lxor_spec.
  destruct (Z.testbit (Z.shiftr reg 1) n), (Z.testbit (Z.shiftr b 1) n),
           (Z.testbit (if xorb (Z.odd reg) (Z.odd b) then CRC32_POLYNOM else 0) n);
    reflexivity.
Qed.

Lemma feed_bits (k : nat) :
  forall reg b : Z,
    (k <= 32)%nat -> in_u32 reg -> 0 <= b < 2 ^ Z.of_nat k ->
    fold_left Reference.shift_in (Reference.lsb_first k b) reg
    = SoftCrc.crc_bits k (Z.lxor reg b).
Proof.
  induction k as [| k IH]; intros reg b Hk Hreg Hb.
  - simpl in *. replace b with 0 by lia. symmetry. apply Z.lxor_0_r.
  - assert (Hb32 : in_u32 b).
    { split; [lia |]. apply Z.lt_le_trans with (2 ^ Z.of_nat (S k)); [lia |].
      apply Z.pow_le_mono_r; lia. }
    assert (Hhalf : 0 <= Z.shiftr b 1 < 2 ^ Z.of_nat k).
    { rewrite Z.shiftr_div_pow2 by lia. change (2 ^ 1) with 2.
      rewrite Nat2Z.inj_succ, Z.pow_succ_r in Hb by lia.
      split; [apply Z.div_pos; lia | apply Z.div_lt_upper_bound; lia]. }
    cbn [Reference.lsb_first fold_left SoftCrc.crc_bits].
    rewrite IH by (try apply shift_in_range; first [lia | assumption]).
    rewrite crc_bit_feed by assumption. reflexivity.
Qed.

Lemma feed_octet (reg : Z) (b : byte) :
  in_u32 reg ->
  fold_left Reference.shift_in (Reference.octet_bits (byte_to_Z b)) reg
  = SoftCrc.crc_bits 8 (Z.lxor reg (byte_to_Z b)).
Proof.
  intros Hreg. apply (feed_bits 8); [lia | exact Hreg | apply byte_to_Z_range].
Qed.

Lemma crc_loop_reference (data : list byte) :
  forall reg : Z,
    in_u32 reg ->
    SoftCrc.crc_loop data (List.length data) reg
    = Some (fold_left Reference.shift_in (Reference.message_bits data) reg).
Proof.
  induction data as [| b data IH]; intros reg Hreg.
  - reflexivity.
  - cbn [List.length SoftCrc.crc_loop Reference.message_bits flat_map].
    rewrite fold_left_app, feed_octet by assumption.
    apply IH, crc_bits_range, lxor_u32;
      [assumption | apply in_u8_u32, byte_to_Z_range].
Qed.

Lemma fold_shift_in_range (bits : list bool) :
  forall reg, in_u32 reg -> in_u32 (fold_left Reference.shift_in bits reg).
Proof.
  induction bits as [| bit bits IH]; intros reg Hreg; simpl.
  - exact Hreg.
  - apply IH, shift_in_range, Hreg.
Qed.

Lemma soft_is_reference (data : list byte) :
  Z.of_nat (List.length data) < 2 ^ 16 ->
  SoftCrc.protCRC32 data (Z.of_nat (List.length data))
  = Some (Reference.crc32 data).
Proof.
  intros Hlen. unfold SoftCrc.protCRC32, Reference.crc32, u16.
  rewrite Z.mod_small, Nat2Z.id by lia.
  assert (Hinit : in_u32 CRC32_INITIAL) by (vm_compute; split; congruence).
  rewrite (u32_small _ Hinit), crc_loop_reference by assumption. simpl.
  rewrite u32_small; [reflexivity |].
  apply lxor_u32; [apply fold_shift_in_range |]; assumption.
Qed.

End CrcReference.

(** C5. [protCRC32] is the standard reflected CRC32 (polynomial
    0xEDB88320, initial value and final exclusive or 0xFFFFFFFF): on a
    whole message that an [unsigned short] length can describe, both
    builds return the CRC32 of the bit-serial definition; on the empty
    range they return 0x00000000 and on the nine ASCII bytes of
    "123456789" they return 0xCBF43926. *)
Theorem protCRC32_standard_crc32 :
  (forall data : list byte,
      Z.of_nat (List.length data) < 2 ^ 16 ->
      protCRC32 data (Z.of_nat (List.length data)) = Some (Reference.crc32 data) /\
      SoftCrc.protCRC32 data (Z.of_nat (List.length data))
      = Some (Reference.crc32 data)) /\
  (forall buff : list byte,
      protCRC32 buff 0 = Some 0x00000000 /\
      SoftCrc.protCRC32 buff 0 = Some 0x00000000) /\
  protCRC32 check_input 9 = Some 0xCBF43926 /\
  SoftCrc.protCRC32 check_input 9 = Some 0xCBF43926.
Proof.
  split; [| split; [| split]].
  - intros data Hlen.
    rewrite <- CrcLoops.protCRC32_agree.
    split; apply CrcReference.soft_is_reference, Hlen.
  - intros buff. split; reflexivity.
  - vm_compute. reflexivity.
  - vm_compute. reflexivity.
Qed.

Lemma protCRC32_standard_crc32_witness :
  protCRC32 check_input (Z.of_nat (List.length check_input))
  = Some (Reference.crc32 check_input) /\
  Reference.crc32 check_input = 0xCBF43926.
Proof.
  split.
  - apply (proj1 protCRC32_standard_crc32 check_input). vm_compute. reflexivity.
  - vm_compute. reflexivity.
Defined.

(** ** Struct members read as wire fields *)

Module Fields.

Lemma lor_shiftl_add (a b n : Z) :
  0 <= n -> 0 <= a < 2 ^ n -> Z.lor a (Z.shiftl b n) = a + 2 ^ n * b.
Proof.
  intros Hn Ha.
  assert (Hdisj : Z.land a (Z.shiftl b n) = 0).
  { apply Z.bits_inj'. intros i Hi.
    rewrite Z.land_spec, Z.bits_0.
    destruct (Z.lt_ge_cases i n) as [Hlt | Hge].
    - rewrite (Z.shiftl_spec_low b n i Hlt). apply andb_false_r.
    - rewrite <- (Z.mod_small a (2 ^ n) Ha).
      rewrite Z.mod_pow2_bits_high by lia. reflexivity. }
  rewrite <- Z.lxor_lor by exact Hdisj.
  rewrite <- Z.add_nocarry_lxor by exact Hdisj.
  rewrite Z.shiftl_mul_pow2 by exact Hn. lia.
Qed.

Lemma read_u16_wire (buffer : list byte) (off : nat) :
  read_u16 buffer off
  = match nth_error buffer off, nth_error buffer (off + 1) with
    | Some b0, Some b1 => Some (byte_to_Z b0 + 256 * byte_to_Z b1)
    | _, _ => None
    end.
Proof.
  unfold read_u16, read_u8.
  destruct (nth_error buffer off) as [b0 |]; cbn [option_map bind];
    [| reflexivity].
  destruct (nth_error buffer (off + 1)) as [b1 |]; cbn [option_map bind];
    [| reflexivity].
  rewrite lor_shiftl_add; [reflexivity | lia | apply byte_to_Z_range].
Qed.

Lemma read_u32_wire (b0 b1 b2 b3 : byte) :
  Z.lor (byte_to_Z b0)
    (Z.lor (Z.shiftl (byte_to_Z b1) 8)
       (Z.lor (Z.shiftl (byte_to_Z b2) 16) (Z.shiftl (byte_to_Z b3) 24)))
  = byte_to_Z b0 + 2 ^ 8 * byte_to_Z b1
    + 2 ^ 16 * byte_to_Z b2 + 2 ^ 24 * byte_to_Z b3.
Proof.
  pose proof (byte_to_Z_range b0) as H0.
  pose proof (byte_to_Z_range b1) as H1.
  pose proof (byte_to_Z_range b2) as H2.
  set (z0 := byte_to_Z b0) in *. set (z1 := byte_to_Z b1) in *.
  set (z2 := byte_to_Z b2) in *. set (z3 := byte_to_Z b3) in *.
  replace (Z.shiftl z3 24) with (Z.shiftl (Z.shiftl (Z.shiftl z3 8) 8) 8)
    by (rewrite !Z.shiftl_shiftl by lia; reflexivity).
  replace (Z.shiftl z2 16) with (Z.shiftl (Z.shiftl z2 8) 8)
    by (rewrite !Z.shiftl_shiftl by lia; reflexivity).
  rewrite <- !Z.shiftl_lor.
  rewrite !lor_shiftl_add by (try lia; assumption).
  change (2 ^ 8) with 256. change (2 ^ 16) with 65536.
  change (2 ^ 24) with 16777216. lia.
Qed.

Lemma prot_header_wire (buffer : list byte) :
  prot_header buffer
  = match nth_error buffer 0, nth_error buffer 1 with
    | Some b0, Some b1 => Some (byte_to_Z b0 + 256 * byte_to_Z b1)
    | _, _ => None
    end.
Proof. unfold prot_header. apply read_u16_wire. Qed.

Lemma prot_crc32_wire (buffer : list byte) :
  prot_crc32 buffer = Wire.stored_crc buffer.
Proof.
  unfold prot_crc32, Wire.stored_crc, read_u32, read_u8.
  change (prot_offset ["crc32"%string]) with (36 + 0)%nat.
  replace (36 + 0 + 1)%nat with (36 + 1)%nat by reflexivity.
  replace (36 + 0 + 2)%nat with (36 + 2)%nat by reflexivity.
  replace (36 + 0 + 3)%nat with (36 + 3)%nat by reflexivity.
  rewrite <- !nth_error_skipn.
  destruct (skipn 36 buffer) as [| b0 [| b1 [| b2 [| b3 rest]]]];
    try reflexivity.
  cbn [nth_error option_map bind firstn].
  rewrite read_u32_wire. reflexivity.
Qed.

(** The complement the code forms, [(uint8_t)~ff], is the 8-bit one. *)
Lemma lnot_complement8 (ff : Z) :
  in_u8 ff -> u8 (Z.lnot ff) = Wire.complement8 ff.
Proof.
  intros Hff. apply Z.eqb_eq.
  apply (below_forall (fun ff => u8 (Z.lnot ff) =? Wire.complement8 ff) 256);
    [vm_compute; reflexivity | exact Hff].
Qed.

Lemma complement8_lxor (s f : Z) :
  s = Wire.complement8 f <-> Z.lxor s f = 0xFF.
Proof.
  unfold Wire.complement8. split; intros H.
  - rewrite H, (Z.lxor_comm f), Z.lxor_assoc, Z.lxor_nilpotent.
    apply Z.lxor_0_r.
  - rewrite <- H, (Z.lxor_comm s), <- Z.lxor_assoc, Z.lxor_nilpotent.
    reflexivity.
Qed.

Lemma crc_span_value : crc_span = 36.
Proof. reflexivity. Qed.

Lemma protCRC32_span (buffer : list byte) :
  protCRC32 buffer crc_span = protCRC32 (firstn 36 buffer) 36.
Proof. symmetry. apply (CrcLoops.protCRC32_firstn buffer 36). Qed.

End Fields.

(** ** The validator, check by check *)

Module Verdict.

Lemma nth_error_in {A : Type} (l : list A) (i : nat) :
  (i < List.length l)%nat -> exists a, nth_error l i = Some a.
Proof.
  intros Hi. destruct (nth_error l i) as [a |] eqn:Ha.
  - exists a. reflexivity.
  - apply nth_error_None in Ha. lia.
Qed.

Ltac defined_byte buffer i b Hb :=
  let H := fresh in
  assert (H : exists a, nth_error buffer i = Some a)
    by (apply nth_error_in; lia);
  destruct H as [b Hb].

Lemma stored_crc_defined (buffer : list byte) :
  (40 <= List.length buffer)%nat -> exists c, Wire.stored_crc buffer = Some c.
Proof.
  intros Hlen. unfold Wire.stored_crc.
  pose proof (length_skipn 36 buffer) as Hs.
  destruct (skipn 36 buffer) as [| b0 [| b1 [| b2 [| b3 rest]]]];
    simpl in Hs; try lia.
  eexists. reflexivity.
Qed.

Section AnyBuild.

Variable crc_fn : list byte -> Z -> option Z.

Lemma header_stage (buffer : list byte) :
  (2 <= List.length buffer)%nat ->
  Wire.header_ok buffer = false ->
  checkImuProtBuffer_with crc_fn buffer = Some IMU_PROT_BAD_HEADER.
Proof.
  intros Hlen Hbad.
  defined_byte buffer 0%nat b0 E0. defined_byte buffer 1%nat b1 E1.
  unfold checkImuProtBuffer_with. rewrite Fields.prot_header_wire.
  unfold Wire.header_ok in Hbad. rewrite E0, E1 in *. cbn [bind].
  unfold IMU_PROT_HEADER. rewrite Z.eqb_sym, Hbad. reflexivity.
Qed.

Lemma sequencer_stage (buffer : list byte) :
  (4 <= List.length buffer)%nat ->
  Wire.header_ok buffer = true ->
  Wire.sequencer_ok buffer = false ->
  checkImuProtBuffer_with crc_fn buffer = Some IMU_PROT_BAD_SEQUENCER.
Proof.
  intros Hlen Hhdr Hbad.
  defined_byte buffer 0%nat b0 E0. defined_byte buffer 1%nat b1 E1.
  defined_byte buffer 2%nat b2 E2. defined_byte buffer 3%nat b3 E3.
  unfold checkImuProtBuffer_with. rewrite Fields.prot_header_wire.
  unfold Wire.header_ok in Hhdr. unfold Wire.sequencer_ok in Hbad.
  rewrite E0, E1 in *. rewrite E2, E3 in Hbad. cbn [bind].
  unfold IMU_PROT_HEADER. rewrite Z.eqb_sym, Hhdr. cbn [negb].
  unfold prot_ff_sequencer, prot_sequencer, read_u8.
  change (prot_offset ["ff_sequencer"%string]) with 3%nat.
  change (prot_offset ["sequencer"%string]) with 2%nat.
  rewrite E2, E3. cbn [option_map bind].
  rewrite Fields.lnot_complement8 by apply byte_to_Z_range.
  rewrite Hbad. reflexivity.
Qed.

Hypothesis crc_fn_span :
  forall buffer, crc_fn buffer crc_span = protCRC32 (firstn 36 buffer) 36.

Lemma all_stages (buffer : list byte) :
  (40 <= List.length buffer)%nat ->
  checkImuProtBuffer_with crc_fn buffer = Some (Wire.verdict buffer).
Proof.
  intros Hlen. unfold Wire.verdict.
  destruct (Wire.header_ok buffer) eqn:Hhdr; cbn [negb];
    [| apply header_stage; [lia | exact Hhdr]].
  destruct (Wire.sequencer_ok buffer) eqn:Hseq; cbn [negb];
    [| apply sequencer_stage; [lia | exact Hhdr | exact Hseq]].
  defined_byte buffer 0%nat b0 E0. defined_byte buffer 1%nat b1 E1.
  defined_byte buffer 2%nat b2 E2. defined_byte buffer 3%nat b3 E3.
  unfold checkImuProtBuffer_with. rewrite Fields.prot_header_wire.
  unfold Wire.header_ok in Hhdr. unfold Wire.sequencer_ok in Hseq.
  rewrite E0, E1 in *. rewrite E2, E3 in Hseq. cbn [bind].
  unfold IMU_PROT_HEADER. rewrite Z.eqb_sym, Hhdr. cbn [negb].
  unfold prot_ff_sequencer, prot_sequencer, read_u8.
  change (prot_offset ["ff_sequencer"%string]) with 3%nat.
  change (prot_offset ["sequencer"%string]) with 2%nat.
  rewrite E2, E3. cbn [option_map bind].
  rewrite Fields.lnot_complement8 by apply byte_to_Z_range.
  rewrite Hseq. cbn [negb].
  rewrite crc_fn_span, Fields.prot_crc32_wire. unfold Wire.crc_ok.
  destruct (CrcLoops.protCRC32_total (firstn 36 buffer) 36) as (crc & _ & ->).
  { rewrite length_firstn. change (Z.to_nat (u16 36)) with 36%nat. lia. }
  destruct (stored_crc_defined buffer Hlen) as (stored & ->).
  cbn [bind]. destruct (crc =? stored); reflexivity.
Qed.

End AnyBuild.


(** The two builds of the validator are one function. *)
Lemma builds_agree (buffer : list byte) :
  SoftBuild.checkImuProtBuffer buffer = checkImuProtBuffer buffer.
Proof.
  unfold SoftBuild.checkImuProtBuffer, checkImuProtBuffer,
    checkImuProtBuffer_with.
  rewrite CrcLoops.protCRC32_agree. reflexivity.
Qed.

(** Reads below the packet size see only the packet prefix. *)
Lemma read_u8_prefix (buffer : list byte) (k i : nat) :
  (i < k)%nat -> read_u8 (firstn k buffer) i = read_u8 buffer i.
Proof.
  intros Hi. unfold read_u8. rewrite nth_error_firstn.
  replace (i <? k)%nat with true by (symmetry; apply Nat.ltb_lt; exact Hi).
  reflexivity.
Qed.

Lemma check_prefix (buffer : list byte) :
  checkImuProtBuffer (firstn 40 buffer) = checkImuProtBuffer buffer.
Proof.
  unfold checkImuProtBuffer, checkImuProtBuffer_with.
  unfold prot_header, prot_ff_sequencer, prot_sequencer, prot_crc32,
    read_u16, read_u32.
  change (prot_offset ["header"%string]) with 0%nat.
  change (prot_offset ["ff_sequencer"%string]) with 3%nat.
  change (prot_offset ["sequencer"%string]) with 2%nat.
  change (prot_offset ["crc32"%string]) with 36%nat.
  cbn [Nat.add].
  rewrite !read_u8_prefix by lia.
  rewrite (Fields.protCRC32_span (firstn 40 buffer)).
  rewrite (Fields.protCRC32_span buffer).
  rewrite firstn_firstn. reflexivity.
Qed.

End Verdict.

(** C1. On a buffer of at least the packet size whose header field is
    0x9574 and whose sequencer byte is the complement of the byte after
    it, the validator returns [IMU_PROT_BAD_CRC] when the CRC32 of the
    bytes [0, 36) differs from the little-endian field at offset 36 and
    [IMU_PROT_OK] when they are equal; and it returns [IMU_PROT_OK] exactly
    when the three checks pass. The [SOFT_CRC] build returns the same. *)
Theorem crc_check_decides (buffer : list byte) :
  (Wire.packet_size <= List.length buffer)%nat ->
  (Wire.header_ok buffer = true ->
   Wire.sequencer_ok buffer = true ->
   checkImuProtBuffer buffer
   = Some (if Wire.crc_ok buffer then IMU_PROT_OK else IMU_PROT_BAD_CRC)) /\
  (checkImuProtBuffer buffer = Some IMU_PROT_OK <->
   Wire.header_ok buffer = true /\
   Wire.sequencer_ok buffer = true /\
   Wire.crc_ok buffer = true) /\
  SoftBuild.checkImuProtBuffer buffer = checkImuProtBuffer buffer.
Proof.
  intros Hlen. unfold Wire.packet_size in Hlen.
  pose proof (Verdict.all_stages protCRC32 Fields.protCRC32_span buffer Hlen)
    as Hall.
  fold checkImuProtBuffer in Hall.
  split; [| split]; [rewrite Hall; unfold Wire.verdict .. |].
  - intros -> ->. cbn [negb]. destruct (Wire.crc_ok buffer); reflexivity.
  - destruct (Wire.header_ok buffer), (Wire.sequencer_ok buffer),
      (Wire.crc_ok buffer); cbn [negb]; split;
      solve [ intros H; repeat split; congruence
            | intros (H1 & H2 & H3); congruence ].
  - apply Verdict.builds_agree.
Qed.

Lemma crc_check_decides_witness :
  checkImuProtBuffer sample_packet = Some IMU_PROT_OK /\
  checkImuProtBuffer (hexStringToByteArray broken_payload_hex)
  = Some IMU_PROT_BAD_CRC.
Proof.
  split.
  - apply (proj1 (proj2 (crc_check_decides sample_packet
                           ltac:(vm_compute; lia)))).
    vm_compute. repeat split; reflexivity.
  - apply (proj1 (crc_check_decides (hexStringToByteArray broken_payload_hex)
                    ltac:(vm_compute; lia))); vm_compute; reflexivity.
Defined.

(** C2. A buffer whose little-endian 16-bit value at offset 0 is not
    0x9574 is answered [IMU_PROT_BAD_HEADER], whatever its other bytes
    are, in both builds. *)
Theorem bad_header_whatever_follows (buffer : list byte) :
  (2 <= List.length buffer)%nat ->
  Wire.header_ok buffer = false ->
  checkImuProtBuffer buffer = Some IMU_PROT_BAD_HEADER /\
  SoftBuild.checkImuProtBuffer buffer = Some IMU_PROT_BAD_HEADER.
Proof.
  intros Hlen Hbad. split; apply Verdict.header_stage; assumption.
Qed.

(** A packet whose sequencer and CRC checks pass and whose header does
    not is answered [IMU_PROT_BAD_HEADER]. *)
Lemma bad_header_whatever_follows_witness :
  Wire.sequencer_ok resealed_bad_header = true /\
  Wire.crc_ok resealed_bad_header = true /\
  checkImuProtBuffer resealed_bad_header = Some IMU_PROT_BAD_HEADER.
Proof.
  split; [vm_compute; reflexivity |].
  split; [vm_compute; reflexivity |].
  apply (bad_header_whatever_follows resealed_bad_header).
  - vm_compute. lia.
  - vm_compute. reflexivity.
Defined.

(** C3. With the header field equal to 0x9574, a sequencer byte [s] at
    offset 2 that is not the 8-bit complement of the byte [f] at offset 3,
    which is to say [s xor f <> 0xFF], is answered
    [IMU_PROT_BAD_SEQUENCER] whatever the CRC field holds, in both
    builds. *)
Theorem bad_sequencer_whatever_crc (buffer : list byte) (s f : byte) :
  nth_error buffer 2 = Some s ->
  nth_error buffer 3 = Some f ->
  Wire.header_ok buffer = true ->
  (byte_to_Z s <> Wire.complement8 (byte_to_Z f) <->
   Z.lxor (byte_to_Z s) (byte_to_Z f) <> 0xFF) /\
  (byte_to_Z s <> Wire.complement8 (byte_to_Z f) ->
   checkImuProtBuffer buffer = Some IMU_PROT_BAD_SEQUENCER /\
   SoftBuild.checkImuProtBuffer buffer = Some IMU_PROT_BAD_SEQUENCER).
Proof.
  intros Hs Hf Hhdr. split.
  - rewrite Fields.complement8_lxor. reflexivity.
  - intros Hne.
    assert (Hlen : (4 <= List.length buffer)%nat).
    { assert (H : nth_error buffer 3 <> None) by congruence.
      apply nth_error_Some in H. lia. }
    assert (Hseq : Wire.sequencer_ok buffer = false).
    { unfold Wire.sequencer_ok. rewrite Hs, Hf. apply Z.eqb_neq, Hne. }
    split; apply Verdict.sequencer_stage; assumption.
Qed.

(** A packet whose CRC field is right for its content and whose sequencer
    pair is not complementary is answered [IMU_PROT_BAD_SEQUENCER]. *)
Lemma bad_sequencer_whatever_crc_witness :
  Wire.crc_ok resealed_bad_sequencer = true /\
  checkImuProtBuffer resealed_bad_sequencer = Some IMU_PROT_BAD_SEQUENCER.
Proof.
  split; [vm_compute; reflexivity |].
  apply (proj2 (bad_sequencer_whatever_crc resealed_bad_sequencer x1e xe0
                  eq_refl eq_refl ltac:(vm_compute; reflexivity))).
  vm_compute. discriminate.
Defined.

(** C6. The validator answers [IMU_PROT_OK] (the value 0) on the 40 bytes
    spelled by the first test vector of the driver, also when they sit at
    the start of a larger array as in [parsePacket]. *)
Theorem sample_packet_valid :
  List.length sample_packet = 40%nat /\
  checkImuProtBuffer sample_packet = Some IMU_PROT_OK /\
  SoftBuild.checkImuProtBuffer sample_packet = Some IMU_PROT_OK /\
  error_code IMU_PROT_OK = 0 /\
  forall rest : list byte,
    checkImuProtBuffer (sample_packet ++ rest) = Some IMU_PROT_OK.
Proof.
  split; [reflexivity |].
  split; [vm_compute; reflexivity |].
  split; [vm_compute; reflexivity |].
  split; [reflexivity |].
  intros rest. rewrite <- Verdict.check_prefix.
  rewrite firstn_app.
  replace (firstn 40 sample_packet) with sample_packet by reflexivity.
  replace (40 - List.length sample_packet)%nat with 0%nat by reflexivity.
  rewrite firstn_0, app_nil_r. vm_compute. reflexivity.
Qed.

(** C7. Two buffers with the same first [sizeof(ImuProt_t)] = 40 bytes get
    the same answer, in both builds, and a buffer gets the answer of its
    own 40-byte prefix: no byte past the packet is read. *)
Theorem verdict_depends_on_packet_prefix (PACK_IT : bool) (b1 b2 : list byte) :
  firstn (sizeof (ImuProt_t PACK_IT)) b1 = firstn (sizeof (ImuProt_t PACK_IT)) b2 ->
  checkImuProtBuffer b1 = checkImuProtBuffer b2 /\
  SoftBuild.checkImuProtBuffer b1 = SoftBuild.checkImuProtBuffer b2 /\
  checkImuProtBuffer (firstn Wire.packet_size b1) = checkImuProtBuffer b1.
Proof.
  intros Hsame.
  assert (H40 : firstn 40 b1 = firstn 40 b2) by (destruct PACK_IT; exact Hsame).
  assert (Heq : checkImuProtBuffer b1 = checkImuProtBuffer b2).
  { rewrite <- (Verdict.check_prefix b1), <- (Verdict.check_prefix b2), H40.
    reflexivity. }
  split; [exact Heq |]. split.
  - rewrite !Verdict.builds_agree. exact Heq.
  - apply Verdict.check_prefix.
Qed.

Lemma verdict_depends_on_packet_prefix_witness :
  checkImuProtBuffer (sample_packet ++ [x00])
  = checkImuProtBuffer (sample_packet ++ [xff; xa5; x5a]).
Proof.
  apply (verdict_depends_on_packet_prefix true
           (sample_packet ++ [x00]) (sample_packet ++ [xff; xa5; x5a])).
  vm_compute. reflexivity.
Defined.

(** ** Packet layout *)

Module Extent.

(** A loop that would run past the end of the buffer has no result. *)
Lemma table_loop_short (buff : list byte) (n : nat) :
  forall (i : nat) (crc : Z),
    (i <= List.length buff < i + n)%nat -> table_loop buff i n crc = None.
Proof.
  induction n as [| n IH]; intros i crc Hlen; simpl.
  - lia.
  - unfold read_u8. destruct (nth_error buff i) as [b |] eqn:Hb;
      cbn [option_map bind]; [| reflexivity].
    assert (Hi : nth_error buff i <> None) by congruence.
    apply nth_error_Some in Hi. apply IH. lia.
Qed.

End Extent.



(** ** Temperature converter *)

Module Kelvin.

Lemma zero_float : f32_of_Z 0 = S754_zero false.
Proof. reflexivity. Qed.

Lemma kelvin_nearest :
  f32_div (f32_of_Z 27315) (f32_of_Z 100) = KELVIN.
Proof. vm_compute. reflexivity. Qed.

Lemma magnitude_nonneg (m : positive) (e : Z) : 0 <= magnitude m e.
Proof.
  unfold magnitude. destruct e as [| p | p].
  - lia.
  - apply Z.mul_nonneg_nonneg; [lia | apply Z.pow_nonneg; lia].
  - apply Z.div_pos; [lia | apply Z.pow_pos_nonneg; lia].
Qed.

(** The test [c < 0] and the sign of the integral part. *)
Lemma trunc_sign (x : spec_float) (t : Z) :
  f32_trunc x = Some t ->
  (f32_ltb x (f32_of_Z 0) = true -> t <= 0) /\
  (f32_ltb x (f32_of_Z 0) = false -> 0 <= t).
Proof.
  rewrite zero_float.
  destruct x as [s | s | | s m e]; cbn [f32_trunc]; try discriminate.
  - intros [= <-]. split; lia.
  - intros [= <-]. pose proof (magnitude_nonneg m e) as Hm.
    unfold f32_ltb, SFltb, SFcompare.
    destruct s; cbn [cond_Zopp]; split; intros; try discriminate; lia.
Qed.

Lemma cast_zero : cast_u16 (f32_of_Z 0) = Some 0.
Proof. reflexivity. Qed.

Lemma cast_range (x : spec_float) (v : Z) :
  cast_u16 x = Some v -> 0 <= v < 2 ^ 16.
Proof.
  unfold cast_u16. destruct (f32_trunc x) as [z |]; cbn [bind];
    [| discriminate].
  destruct ((0 <=? z) && (z <? 2 ^ 16)) eqn:Hz; [| discriminate].
  intros [= <-]. apply andb_true_iff in Hz. destruct Hz as [H0 H1].
  apply Z.leb_le in H0. apply Z.ltb_lt in H1. lia.
Qed.

Lemma cast_in_range (x : spec_float) (t : Z) :
  f32_trunc x = Some t -> 0 <= t < 2 ^ 16 -> cast_u16 x = Some t.
Proof.
  intros Ht [H0 H1]. unfold cast_u16. rewrite Ht. cbn [bind].
  apply Z.leb_le in H0. apply Z.ltb_lt in H1. rewrite H0, H1. reflexivity.
Qed.


End Kelvin.

(** C8 as the code has it. With every operation carried out in binary32,
    let [x = ((c + 273.15f) * 100) + 0.5]. When [x] has an integral part
    [t] below 65536, [tempToKelvin] returns [t], or 0 when [t] is
    negative; whenever [x < 0], minus infinity included, it returns 0; and
    a returned value is never negative. What happens from 65536 upwards is
    the matter of C10. *)
Theorem tempToKelvin_rounds_below_overflow (c : spec_float) :
  (forall t : Z,
      f32_trunc (tempToKelvin_scaled c) = Some t ->
      t < 2 ^ 16 ->
      tempToKelvin c = Some (Z.max 0 t)) /\
  (f32_ltb (tempToKelvin_scaled c) (f32_of_Z 0) = true ->
   tempToKelvin c = Some 0) /\
  (forall v : Z, tempToKelvin c = Some v -> 0 <= v < 2 ^ 16).
Proof.
  unfold tempToKelvin, tempToKelvin_clamped.
  set (x := tempToKelvin_scaled c).
  split; [| split].
  - intros t Ht Hsmall.
    destruct (Kelvin.trunc_sign x t Ht) as [Hneg Hpos].
    destruct (f32_ltb x (f32_of_Z 0)) eqn:Hlt.
    + rewrite Z.max_l by (apply Hneg; reflexivity). apply Kelvin.cast_zero.
    + rewrite Z.max_r by (apply Hpos; reflexivity).
      apply Kelvin.cast_in_range; [exact Ht |].
      split; [apply Hpos; reflexivity | exact Hsmall].
  - intros ->. apply Kelvin.cast_zero.
  - intros v. apply Kelvin.cast_range.
Qed.

Lemma tempToKelvin_rounds_below_overflow_witness :
  tempToKelvin (f32_of_Z 25) = Some 29815 /\
  tempToKelvin (f32_of_Z (-300)) = Some 0.
Proof.
  split.
  - apply (proj1 (tempToKelvin_rounds_below_overflow (f32_of_Z 25)) 29815).
    + vm_compute. reflexivity.
    + vm_compute. reflexivity.
  - apply (proj1 (proj2 (tempToKelvin_rounds_below_overflow (f32_of_Z (-300))))).
    vm_compute. reflexivity.
Defined.

(** C8 as stated fails at 400 degrees Celsius: the rounded value of
    [(400 + 273.15) * 100] is 67315, in exact arithmetic and in binary32
    alike, and [tempToKelvin] does not return it: the conversion to
    [uint16_t] has no defined result, and 1779 where it wraps. *)
Lemma tempToKelvin_400_not_rounded :
  Exact.centikelvin (f32_of_Z 400) = Some 67315 /\
  f32_trunc (tempToKelvin_clamped (f32_of_Z 400)) = Some 67315 /\
  tempToKelvin (f32_of_Z 400) <> Some 67315 /\
  tempToKelvin_wrap (f32_of_Z 400) <> Some 67315 /\
  tempToKelvin (f32_of_Z 400) = None /\
  tempToKelvin_wrap (f32_of_Z 400) = Some 1779.
Proof.
  repeat split; try (vm_compute; reflexivity); vm_compute; discriminate.
Qed.

(** Below the overflow too the binary32 result can be one off the exactly
    rounded one: at [c = 8997436 * 2^-17 = 68.64498901...] the exact value
    is 34179.4989..., the code returns 34180. *)
Lemma tempToKelvin_inexact_rounding :
  valid_binary 24 128 (S754_finite false 8997436 (-17)) = true /\
  Exact.centikelvin (S754_finite false 8997436 (-17)) = Some 34179 /\
  tempToKelvin (S754_finite false 8997436 (-17)) = Some 34180.
Proof. repeat split; vm_compute; reflexivity. Qed.

(** The conversion of the build agrees with the C standard wherever the
    standard defines a result. *)
Lemma cast_u16_wrap_extends (x : spec_float) (v : Z) :
  cast_u16 x = Some v -> cast_u16_wrap x = Some v.
Proof.
  unfold cast_u16, cast_u16_wrap, cvttss2si.
  destruct (f32_trunc x) as [z |]; cbn [bind]; [| discriminate].
  destruct ((0 <=? z) && (z <? 2 ^ 16)) eqn:Hz; [| discriminate].
  intros Hv. apply andb_true_iff in Hz. destruct Hz as [H0 H1].
  apply Z.leb_le in H0. apply Z.ltb_lt in H1.
  assert (Hv' : z = v) by congruence. subst v.
  change (2 ^ 16) with 65536 in H1.
  replace ((- 2 ^ 31 <=? z) && (z <? 2 ^ 31)) with true.
  - unfold u16. rewrite Z.mod_small by (change (2 ^ 16) with 65536; lia).
    reflexivity.
  - symmetry. apply andb_true_iff. split.
    + apply Z.leb_le. change (2 ^ 31) with 2147483648. lia.
    + apply Z.ltb_lt. change (2 ^ 31) with 2147483648. lia.
Qed.




(** * Further properties of the code *)

(** ** Exclusive or of buffers *)

Module Corruption.

Lemma byte_to_of_Z (z : Z) : byte_to_Z (byte_of_Z z) = u8 z.
Proof.
  unfold byte_of_Z, byte_to_Z.
  assert (Hr : 0 <= u8 z < 256) by (apply Z.mod_pos_bound; reflexivity).
  destruct (Byte.of_N (Z.to_N (u8 z))) as [b |] eqn:Hb.
  - apply Byte.to_of_N in Hb. rewrite Hb. lia.
  - apply Byte.of_N_None_iff in Hb. lia.
Qed.

Lemma byte_of_to_Z (b : byte) : byte_of_Z (byte_to_Z b) = b.
Proof.
  unfold byte_of_Z, u8. rewrite (Z.mod_small _ _ (byte_to_Z_range b)).
  unfold byte_to_Z. rewrite N2Z.id, Byte.of_to_N. reflexivity.
Qed.

Lemma byte_to_Z_inj (a b : byte) : byte_to_Z a = byte_to_Z b -> a = b.
Proof.
  intros H. rewrite <- (byte_of_to_Z a), <- (byte_of_to_Z b), H. reflexivity.
Qed.

Lemma xor_byte_value (a e : byte) :
  byte_to_Z (xor_byte a e) = Z.lxor (byte_to_Z a) (byte_to_Z e).
Proof.
  unfold xor_byte. rewrite byte_to_of_Z. apply Z.mod_small.
  apply (lxor_below _ _ 8); [lia | apply byte_to_Z_range ..].
Qed.

Lemma xor_bytes_length (a e : list byte) :
  List.length (xor_bytes a e) = List.length a.
Proof.
  revert e. induction a as [| x a IH]; intros [| y e]; simpl; auto.
Qed.

Lemma xor_bytes_firstn (n : nat) :
  forall a e, firstn n (xor_bytes a e) = xor_bytes (firstn n a) (firstn n e).
Proof.
  induction n as [| n IH]; intros [| x a] [| y e]; simpl; try reflexivity.
  rewrite IH. reflexivity.
Qed.

Lemma xor_bytes_nth (a e : list byte) (i : nat) (x y : byte) :
  nth_error a i = Some x -> nth_error e i = Some y ->
  nth_error (xor_bytes a e) i = Some (xor_byte x y).
Proof.
  revert a e. induction i as [| i IH]; intros [| x' a] [| y' e] Hx Hy;
    simpl in *; try discriminate.
  - injection Hx as ->. injection Hy as ->. reflexivity.
  - apply IH; assumption.
Qed.

Lemma lxor_swap (x y p q : Z) :
  Z.lxor (Z.lxor x y) (Z.lxor p q) = Z.lxor (Z.lxor x p) (Z.lxor y q).
Proof.
  apply Z.bits_inj'. intros n _. rewrite !Z.lxor_spec.
  destruct (Z.testbit x n), (Z.testbit y n), (Z.testbit p n), (Z.testbit q n);
    reflexivity.
Qed.

(** The register after the loop is linear in the pair of the starting
    register and the data. *)
Lemma crc_loop_xor (n : nat) :
  forall (a e : list byte) (x y : Z),
    in_u32 x -> in_u32 y -> (n <= List.length e)%nat ->
    SoftCrc.crc_loop (xor_bytes a e) n (Z.lxor x y)
    = match SoftCrc.crc_loop a n x, SoftCrc.crc_loop e n y with
      | Some p, Some q => Some (Z.lxor p q)
      | _, _ => None
      end.
Proof.
  induction n as [| n IH]; intros a e x y Hx Hy Hlen.
  - reflexivity.
  - destruct e as [| ye e]; [simpl in Hlen; lia |].
    destruct a as [| xa a]; [reflexivity |].
    cbn [xor_bytes SoftCrc.crc_loop].
    rewrite xor_byte_value, lxor_swap.
    assert (Hxa : in_u32 (Z.lxor x (byte_to_Z xa)))
      by (apply lxor_u32; [assumption | apply in_u8_u32, byte_to_Z_range]).
    assert (Hye : in_u32 (Z.lxor y (byte_to_Z ye)))
      by (apply lxor_u32; [assumption | apply in_u8_u32, byte_to_Z_range]).
    rewrite CrcAgreement.crc_bits_lxor by assumption.
    apply IH; try (apply CrcAgreement.crc_bits_range; assumption).
    simpl in Hlen. lia.
Qed.

Lemma crc_loop_range (n : nat) :
  forall (a : list byte) (x r : Z),
    in_u32 x -> SoftCrc.crc_loop a n x = Some r -> in_u32 r.
Proof.
  induction n as [| n IH]; intros a x r Hx; cbn [SoftCrc.crc_loop].
  - intros [= <-]. exact Hx.
  - destruct a as [| b a]; [discriminate |].
    apply IH, CrcAgreement.crc_bits_range, lxor_u32;
      [assumption | apply in_u8_u32, byte_to_Z_range].
Qed.

Lemma crc_loop_defined (n : nat) :
  forall (a : list byte) (x : Z),
    (n <= List.length a)%nat -> exists r, SoftCrc.crc_loop a n x = Some r.
Proof.
  induction n as [| n IH]; intros a x Hlen; simpl.
  - eexists. reflexivity.
  - destruct a as [| b a]; [simpl in Hlen; lia |].
    apply IH. simpl in Hlen. lia.
Qed.

(** [protCRC32] and [crc_linear] through the pointer-advancing loop. *)
Lemma protCRC32_loop (a : list byte) (len : Z) :
  protCRC32 a len
  = match SoftCrc.crc_loop a (Z.to_nat (u16 len)) CRC32_INITIAL with
    | Some r => Some (Z.lxor r CRC32_INITIAL)
    | None => None
    end.
Proof.
  assert (Hinit : in_u32 CRC32_INITIAL) by (vm_compute; split; congruence).
  rewrite <- CrcLoops.protCRC32_agree. unfold SoftCrc.protCRC32.
  rewrite (u32_small _ Hinit).
  destruct (SoftCrc.crc_loop a (Z.to_nat (u16 len)) CRC32_INITIAL) as [r |] eqn:Hr;
    cbn [bind]; [| reflexivity].
  rewrite u32_small; [reflexivity |].
  apply lxor_u32; [| exact Hinit]. apply (crc_loop_range _ _ _ _ Hinit Hr).
Qed.

Lemma crc_linear_loop (e : list byte) (len : Z) :
  crc_linear e len = SoftCrc.crc_loop e (Z.to_nat (u16 len)) 0.
Proof.
  unfold crc_linear. symmetry.
  apply (CrcLoops.loops_agree e _ 0 0). vm_compute. split; congruence.
Qed.

(** The checksum of damaged data is the checksum of the data moved by
    the linear image of the damage. *)
Lemma protCRC32_xor (a e : list byte) (len : Z) :
  (Z.to_nat (u16 len) <= List.length e)%nat ->
  protCRC32 (xor_bytes a e) len
  = match protCRC32 a len, crc_linear e len with
    | Some c, Some l => Some (Z.lxor c l)
    | _, _ => None
    end.
Proof.
  intros Hlen. rewrite !protCRC32_loop, crc_linear_loop.
  assert (Hinit : in_u32 CRC32_INITIAL) by (vm_compute; split; congruence).
  assert (Hzero : in_u32 0) by (vm_compute; split; congruence).
  rewrite <- (Z.lxor_0_r CRC32_INITIAL) at 1.
  rewrite crc_loop_xor by assumption.
  destruct (SoftCrc.crc_loop a _ CRC32_INITIAL) as [p |]; [| reflexivity].
  destruct (SoftCrc.crc_loop e _ 0) as [q |]; [| reflexivity].
  f_equal. rewrite !Z.lxor_assoc. f_equal. apply Z.lxor_comm.
Qed.

End Corruption.

(** X1. The checksum is affine over exclusive or: for three byte ranges
    of the same length, the CRC32 of their bytewise exclusive or is the
    exclusive or of their three CRC32s. *)
Theorem protCRC32_affine (a b c : list byte) (len : Z) :
  0 <= len ->
  len <= Z.of_nat (List.length a) ->
  len <= Z.of_nat (List.length b) ->
  len <= Z.of_nat (List.length c) ->
  exists ca cb cc,
    protCRC32 a len = Some ca /\
    protCRC32 b len = Some cb /\
    protCRC32 c len = Some cc /\
    protCRC32 (xor_bytes (xor_bytes a b) c) len
    = Some (Z.lxor (Z.lxor ca cb) cc).
Proof.
  intros H0 Ha Hb Hc.
  pose proof (CrcLoops.u16_le len H0) as Hu.
  set (n := Z.to_nat (u16 len)).
  assert (Hna : (n <= List.length a)%nat) by (unfold n; lia).
  assert (Hnb : (n <= List.length b)%nat) by (unfold n; lia).
  assert (Hnc : (n <= List.length c)%nat) by (unfold n; lia).
  assert (Hinit : in_u32 CRC32_INITIAL) by (vm_compute; split; congruence).
  rewrite !Corruption.protCRC32_loop. fold n.
  destruct (Corruption.crc_loop_defined n a CRC32_INITIAL Hna) as [p Hp].
  destruct (Corruption.crc_loop_defined n b CRC32_INITIAL Hnb) as [q Hq].
  destruct (Corruption.crc_loop_defined n c CRC32_INITIAL Hnc) as [r Hr].
  rewrite Hp, Hq, Hr.
  exists (Z.lxor p CRC32_INITIAL), (Z.lxor q CRC32_INITIAL),
    (Z.lxor r CRC32_INITIAL).
  repeat split.
  assert (Hstart : CRC32_INITIAL
                   = Z.lxor (Z.lxor CRC32_INITIAL CRC32_INITIAL) CRC32_INITIAL)
    by reflexivity.
  rewrite Hstart at 1.
  rewrite Corruption.crc_loop_xor;
    [| rewrite Z.lxor_nilpotent; vm_compute; split; congruence
     | exact Hinit | exact Hnc].
  rewrite Corruption.crc_loop_xor by assumption.
  rewrite Hp, Hq, Hr. f_equal.
  apply Z.bits_inj'. intros k _. rewrite !Z.lxor_spec.
  destruct (Z.testbit p k), (Z.testbit q k), (Z.testbit r k),
    (Z.testbit CRC32_INITIAL k); reflexivity.
Qed.

Lemma protCRC32_affine_witness :
  exists ca cb cc,
    protCRC32 sample_packet 36 = Some ca /\
    protCRC32 resealed_bad_header 36 = Some cb /\
    protCRC32 resealed_bad_sequencer 36 = Some cc /\
    protCRC32 (xor_bytes (xor_bytes sample_packet resealed_bad_header)
                 resealed_bad_sequencer) 36
    = Some (Z.lxor (Z.lxor ca cb) cc).
Proof.
  apply (protCRC32_affine sample_packet resealed_bad_header
           resealed_bad_sequencer 36); vm_compute; discriminate.
Defined.

(** ** A valid packet and its damage *)

Module Damage.
Import Corruption.

Lemma xor_bytes_skipn (n : nat) :
  forall a e, skipn n (xor_bytes a e) = xor_bytes (skipn n a) (skipn n e).
Proof.
  induction n as [| n IH]; intros a e; [reflexivity |].
  destruct a as [| x a], e as [| y e]; cbn [skipn xor_bytes].
  - reflexivity.
  - destruct (skipn n e); reflexivity.
  - destruct (skipn n a); reflexivity.
  - apply IH.
Qed.

Lemma lxor_shiftl_add (a b n : Z) :
  0 <= n -> 0 <= a < 2 ^ n -> a + 2 ^ n * b = Z.lxor a (Z.shiftl b n).
Proof.
  intros Hn Ha. rewrite <- (Fields.lor_shiftl_add a b n Hn Ha).
  symmetry. apply Z.lxor_lor.
  apply Z.bits_inj'. intros i Hi.
  rewrite Z.land_spec, Z.bits_0.
  destruct (Z.lt_ge_cases i n) as [Hlt | Hge].
  - rewrite (Z.shiftl_spec_low b n i Hlt). apply andb_false_r.
  - rewrite <- (Z.mod_small a (2 ^ n) Ha).
    rewrite Z.mod_pow2_bits_high by lia. reflexivity.
Qed.

(** The little-endian value of four octets, as nested exclusive ors. *)
Lemma le_value_lxor (z0 z1 z2 z3 : Z) :
  in_u8 z0 -> in_u8 z1 -> in_u8 z2 ->
  z0 + 2 ^ 8 * z1 + 2 ^ 16 * z2 + 2 ^ 24 * z3
  = Z.lxor z0 (Z.shiftl (Z.lxor z1 (Z.shiftl (Z.lxor z2 (Z.shiftl z3 8)) 8)) 8).
Proof.
  intros H0 H1 H2.
  rewrite <- !lxor_shiftl_add by (try lia; assumption).
  change (2 ^ 8) with 256. change (2 ^ 16) with 65536.
  change (2 ^ 24) with 16777216. lia.
Qed.

Lemma le_value_xor (c0 c1 c2 c3 d0 d1 d2 d3 : byte) :
  byte_to_Z (xor_byte c0 d0) + 2 ^ 8 * byte_to_Z (xor_byte c1 d1)
  + 2 ^ 16 * byte_to_Z (xor_byte c2 d2) + 2 ^ 24 * byte_to_Z (xor_byte c3 d3)
  = Z.lxor
      (byte_to_Z c0 + 2 ^ 8 * byte_to_Z c1
       + 2 ^ 16 * byte_to_Z c2 + 2 ^ 24 * byte_to_Z c3)
      (byte_to_Z d0 + 2 ^ 8 * byte_to_Z d1
       + 2 ^ 16 * byte_to_Z d2 + 2 ^ 24 * byte_to_Z d3).
Proof.
  rewrite !le_value_lxor by apply byte_to_Z_range.
  rewrite !xor_byte_value.
  rewrite <- lxor_swap, <- Z.shiftl_lxor. do 2 f_equal.
  rewrite <- lxor_swap, <- Z.shiftl_lxor. do 2 f_equal.
  rewrite <- lxor_swap, <- Z.shiftl_lxor. reflexivity.
Qed.

Lemma stored_crc_xor (a e : list byte) (sa se : Z) :
  Wire.stored_crc a = Some sa -> Wire.stored_crc e = Some se ->
  Wire.stored_crc (xor_bytes a e) = Some (Z.lxor sa se).
Proof.
  unfold Wire.stored_crc. rewrite xor_bytes_skipn.
  destruct (skipn 36 a) as [| c0 [| c1 [| c2 [| c3 ra]]]]; try discriminate.
  destruct (skipn 36 e) as [| d0 [| d1 [| d2 [| d3 re]]]]; try discriminate.
  cbn [firstn xor_bytes]. intros [= <-] [= <-].
  rewrite le_value_xor. reflexivity.
Qed.

Lemma lxor_fixed (a e : Z) : Z.lxor a e = a <-> e = 0.
Proof.
  split; intros H.
  - apply Z.lxor_eq_0_iff in H.
    rewrite Z.lxor_comm, <- Z.lxor_assoc, Z.lxor_nilpotent, Z.lxor_0_l in H.
    exact H.
  - rewrite H. apply Z.lxor_0_r.
Qed.

Lemma lxor_cancel_l (a p q : Z) : Z.lxor a p = Z.lxor a q <-> p = q.
Proof.
  split; intros H; [| rewrite H; reflexivity].
  apply Z.lxor_eq_0_iff in H.
  replace (Z.lxor (Z.lxor a p) (Z.lxor a q)) with (Z.lxor p q) in H.
  - apply Z.lxor_eq_0_iff, H.
  - apply Z.bits_inj'. intros n _. rewrite !Z.lxor_spec.
    destruct (Z.testbit a n), (Z.testbit p n), (Z.testbit q n); reflexivity.
Qed.

(** Damage to the header field is seen unless there is none. *)
Lemma header_damage (b0 b1 e0 e1 : byte) :
  byte_to_Z b0 + 256 * byte_to_Z b1 = 0x9574 ->
  (byte_to_Z (xor_byte b0 e0) + 256 * byte_to_Z (xor_byte b1 e1) =? 0x9574)
  = (byte_to_Z e0 =? 0) && (byte_to_Z e1 =? 0).
Proof.
  intros Hhdr.
  pose proof (byte_to_Z_range b0) as R0. pose proof (byte_to_Z_range b1) as R1.
  pose proof (byte_to_Z_range (xor_byte b0 e0)) as X0.
  pose proof (byte_to_Z_range (xor_byte b1 e1)) as X1.
  unfold in_u8 in *. change (2 ^ 8) with 256 in *.
  assert (H0 : byte_to_Z b0 = 0x74) by lia.
  assert (H1 : byte_to_Z b1 = 0x95) by lia.
  pose proof (lxor_fixed (byte_to_Z b0) (byte_to_Z e0)) as F0.
  pose proof (lxor_fixed (byte_to_Z b1) (byte_to_Z e1)) as F1.
  rewrite <- !xor_byte_value in *.
  destruct (Z.eqb_spec (byte_to_Z e0) 0) as [E0 | E0];
    destruct (Z.eqb_spec (byte_to_Z e1) 0) as [E1 | E1]; cbn [andb];
    [apply Z.eqb_eq | apply Z.eqb_neq ..]; intuition lia.
Qed.

(** Damage to the sequencer pair is seen unless both bytes take the same. *)
Lemma sequencer_damage (s f es ef : byte) :
  byte_to_Z s = Wire.complement8 (byte_to_Z f) ->
  (byte_to_Z (xor_byte s es) =? Wire.complement8 (byte_to_Z (xor_byte f ef)))
  = (byte_to_Z es =? byte_to_Z ef).
Proof.
  intros Hs. rewrite !xor_byte_value, Hs. unfold Wire.complement8.
  assert (Heq : Z.lxor (Z.lxor (byte_to_Z f) 0xFF) (byte_to_Z es)
                = Z.lxor (Z.lxor (byte_to_Z f) (byte_to_Z ef)) 0xFF
                <-> byte_to_Z es = byte_to_Z ef).
  { rewrite !Z.lxor_assoc, lxor_cancel_l, (Z.lxor_comm (byte_to_Z ef)).
    apply lxor_cancel_l. }
  destruct (Z.eqb_spec (byte_to_Z es) (byte_to_Z ef)) as [E | E];
    [apply Z.eqb_eq | apply Z.eqb_neq]; tauto.
Qed.

Lemma valid_checks (buffer : list byte) :
  (40 <= List.length buffer)%nat ->
  checkImuProtBuffer buffer = Some IMU_PROT_OK ->
  Wire.header_ok buffer = true /\
  Wire.sequencer_ok buffer = true /\
  Wire.crc_ok buffer = true.
Proof.
  intros Hlen Hok.
  pose proof (Verdict.all_stages protCRC32 Fields.protCRC32_span buffer Hlen)
    as Hall.
  fold checkImuProtBuffer in Hall. rewrite Hall in Hok.
  unfold Wire.verdict in Hok.
  destruct (Wire.header_ok buffer), (Wire.sequencer_ok buffer),
    (Wire.crc_ok buffer); cbn [negb] in Hok; try discriminate.
  repeat split.
Qed.

Lemma damaged_verdict (buffer e : list byte) :
  (40 <= List.length buffer)%nat ->
  List.length e = 40%nat ->
  checkImuProtBuffer buffer = Some IMU_PROT_OK ->
  Wire.verdict (xor_bytes buffer e) = error_verdict e.
Proof.
  intros Hlen He Hok.
  destruct (valid_checks buffer Hlen Hok) as (Hhdr & Hseq & Hcrc).
  unfold Wire.verdict, error_verdict.
  unfold Wire.crc_ok in *.
  rewrite xor_bytes_firstn.
  rewrite protCRC32_xor
    by (rewrite length_firstn; change (Z.to_nat (u16 36)) with 36%nat; lia).
  destruct (protCRC32 (firstn 36 buffer) 36) as [c |]; [| discriminate].
  destruct (Wire.stored_crc buffer) as [stored |] eqn:Hst; [| discriminate].
  apply Z.eqb_eq in Hcrc. subst stored.
  destruct (CrcLoops.table_loop_total (firstn 36 e) 36 0 0) as (l & _ & Hl).
  { vm_compute. split; congruence. }
  { rewrite length_firstn. lia. }
  unfold crc_linear. change (Z.to_nat (u16 36)) with 36%nat. rewrite Hl.
  destruct (Verdict.stored_crc_defined e) as [se Hse]; [lia |].
  rewrite (stored_crc_xor buffer e c se Hst Hse), Hse.
  unfold Wire.header_ok, Wire.sequencer_ok in *.
  destruct buffer as [| b0 [| b1 [| b2 [| b3 rest]]]];
    try (simpl in Hlen; lia).
  destruct e as [| e0 [| e1 [| e2 [| e3 erest]]]]; try discriminate.
  cbn [xor_bytes nth_error] in *.
  apply Z.eqb_eq in Hhdr. apply Z.eqb_eq in Hseq.
  rewrite (header_damage b0 b1 e0 e1 Hhdr).
  rewrite (sequencer_damage b2 b3 e2 e3 Hseq).
  destruct ((byte_to_Z e0 =? 0) && (byte_to_Z e1 =? 0)); cbn [negb];
    [| reflexivity].
  destruct (byte_to_Z e2 =? byte_to_Z e3); cbn [negb]; [| reflexivity].
  assert (Hsame : (Z.lxor c l =? Z.lxor c se) = (l =? se)).
  { destruct (Z.eqb_spec l se) as [E | E];
      [apply Z.eqb_eq | apply Z.eqb_neq]; rewrite lxor_cancel_l; exact E. }
  rewrite Hsame. destruct (l =? se); reflexivity.
Qed.

End Damage.

(** X2. What the validator answers to a valid packet damaged by a 40-byte
    error pattern depends on the pattern alone, not on the packet: bad
    header unless the pattern spares bytes 0 and 1, else bad sequencer
    unless it changes bytes 2 and 3 alike, else bad CRC unless the linear
    checksum of its first 36 bytes equals its last four. *)
Theorem damaged_packet_verdict (buffer e : list byte) :
  (Wire.packet_size <= List.length buffer)%nat ->
  List.length e = Wire.packet_size ->
  checkImuProtBuffer buffer = Some IMU_PROT_OK ->
  checkImuProtBuffer (xor_bytes buffer e) = Some (error_verdict e) /\
  SoftBuild.checkImuProtBuffer (xor_bytes buffer e) = Some (error_verdict e).
Proof.
  unfold Wire.packet_size. intros Hlen He Hok.
  assert (Hx : (40 <= List.length (xor_bytes buffer e))%nat)
    by (rewrite Corruption.xor_bytes_length; exact Hlen).
  pose proof (Verdict.all_stages protCRC32 Fields.protCRC32_span _ Hx) as Hall.
  fold checkImuProtBuffer in Hall.
  rewrite Verdict.builds_agree, Hall.
  rewrite (Damage.damaged_verdict buffer e Hlen He Hok). split; reflexivity.
Qed.

Lemma damaged_packet_verdict_witness :
  checkImuProtBuffer (xor_bytes sample_packet (flip_bit no_error 100))
  = Some IMU_PROT_BAD_CRC.
Proof.
  apply (damaged_packet_verdict sample_packet (flip_bit no_error 100));
    vm_compute; first [reflexivity | lia].
Defined.

(** ** Flipped bits *)

Module Flips.
Import Corruption.

Lemma flip_bit_length (a : list byte) :
  forall i, List.length (flip_bit a i) = List.length a.
Proof.
  induction a as [| x a IH]; intros i; simpl; [reflexivity |].
  destruct (i <? 8)%nat; simpl; [reflexivity | rewrite IH; reflexivity].
Qed.

Lemma pow2_octet (i : nat) : (i < 8)%nat -> in_u8 (2 ^ Z.of_nat i).
Proof.
  intros Hi. unfold in_u8. split.
  - apply Z.pow_nonneg. lia.
  - apply Z.pow_lt_mono_r; lia.
Qed.

Lemma flip_byte_xor (x y : byte) (i : nat) :
  (i < 8)%nat ->
  byte_of_Z (Z.lxor (byte_to_Z (xor_byte x y)) (2 ^ Z.of_nat i))
  = xor_byte x (byte_of_Z (Z.lxor (byte_to_Z y) (2 ^ Z.of_nat i))).
Proof.
  intros Hi. apply byte_to_Z_inj.
  rewrite !xor_byte_value, !byte_to_of_Z.
  unfold u8.
  rewrite !Z.mod_small;
    [apply Z.lxor_assoc | ..];
    repeat (apply (lxor_below _ _ 8); [lia | |]);
    try apply byte_to_Z_range; apply pow2_octet, Hi.
Qed.

(** Flipping a bit of damaged data is damaging by the pattern with that
    bit flipped. *)
Lemma flip_bit_xor (a : list byte) :
  forall (e : list byte) (i : nat),
    (List.length a <= List.length e)%nat ->
    flip_bit (xor_bytes a e) i = xor_bytes a (flip_bit e i).
Proof.
  induction a as [| x a IH]; intros e i Hlen.
  - destruct e as [| y e]; simpl; [reflexivity |].
    destruct (i <? 8)%nat; reflexivity.
  - destruct e as [| y e]; [simpl in Hlen; lia |].
    cbn [xor_bytes flip_bit].
    destruct (i <? 8)%nat eqn:Hi; cbn [xor_bytes].
    + apply Nat.ltb_lt in Hi. rewrite flip_byte_xor by exact Hi. reflexivity.
    + rewrite IH by (simpl in Hlen; lia). reflexivity.
Qed.

Lemma xor_byte_zero (x : byte) : xor_byte x x00 = x.
Proof.
  apply byte_to_Z_inj. rewrite xor_byte_value.
  change (byte_to_Z x00) with 0. apply Z.lxor_0_r.
Qed.

Lemma xor_bytes_zero (a : list byte) :
  forall n, xor_bytes a (repeat x00 n) = a.
Proof.
  induction a as [| x a IH]; intros [| n]; simpl; try reflexivity.
  rewrite xor_byte_zero, IH. reflexivity.
Qed.

Lemma flip_as_damage (a : list byte) (i : nat) :
  List.length a = 40%nat ->
  flip_bit a i = xor_bytes a (flip_bit no_error i).
Proof.
  intros Hlen. rewrite <- flip_bit_xor.
  - unfold no_error. rewrite xor_bytes_zero. reflexivity.
  - unfold no_error. rewrite repeat_length, Hlen. reflexivity.
Qed.

Lemma flip_twice_as_damage (a : list byte) (i j : nat) :
  List.length a = 40%nat ->
  flip_bit (flip_bit a i) j = xor_bytes a (flip_bit (flip_bit no_error i) j).
Proof.
  intros Hlen. rewrite (flip_as_damage a i Hlen).
  apply flip_bit_xor. rewrite flip_bit_length.
  unfold no_error. rewrite repeat_length, Hlen. reflexivity.
Qed.

Lemma below_forall_nat (P : nat -> bool) (n : nat) :
  forallb P (seq 0 n) = true -> forall i, (i < n)%nat -> P i = true.
Proof.
  intros Hall i Hi. rewrite forallb_forall in Hall.
  apply Hall, in_seq. lia.
Qed.

Lemma error_code_inj (v w : ImuProtError_t) :
  error_code v = error_code w -> v = w.
Proof. destruct v, w; simpl; intros H; try reflexivity; discriminate. Qed.

(** The verdict by position of a single flipped bit. *)
Lemma single_flip_pattern (i : nat) :
  (i < 320)%nat ->
  error_verdict (flip_bit no_error i)
  = if (i <? 16)%nat then IMU_PROT_BAD_HEADER
    else if (i <? 32)%nat then IMU_PROT_BAD_SEQUENCER
    else IMU_PROT_BAD_CRC.
Proof.
  intros Hi. apply error_code_inj, Z.eqb_eq.
  apply (below_forall_nat
           (fun i =>
              error_code (error_verdict (flip_bit no_error i))
              =? error_code
                   (if (i <? 16)%nat then IMU_PROT_BAD_HEADER
                    else if (i <? 32)%nat then IMU_PROT_BAD_SEQUENCER
                    else IMU_PROT_BAD_CRC)) 320);
    [vm_compute; reflexivity | exact Hi].
Qed.

Lemma all_distinct_map (f : nat -> Z) (l : list nat) :
  all_distinct (map f l) = true ->
  forall i j, In i l -> In j l -> f i = f j -> i = j.
Proof.
  induction l as [| a l IH]; intros Hall i j Hi Hj Hf; [destruct Hi |].
  cbn [map all_distinct] in Hall. apply andb_true_iff in Hall.
  destruct Hall as [Hhead Htail]. rewrite forallb_forall in Hhead.
  assert (Hfresh : forall k, In k l -> f a <> f k).
  { intros k Hk Heq. specialize (Hhead (f k) (in_map f l k Hk)).
    apply negb_true_iff, Z.eqb_neq in Hhead. contradiction. }
  destruct Hi as [-> | Hi], Hj as [-> | Hj].
  - reflexivity.
  - exfalso. apply (Hfresh j Hj Hf).
  - exfalso. apply (Hfresh i Hi). symmetry. exact Hf.
  - apply IH; assumption.
Qed.

(** The 320 single-bit patterns have 320 different syndromes. *)
Lemma bit_syndromes_distinct :
  all_distinct
    (map (fun i => pattern_syndrome (flip_bit no_error i)) (seq 0 320)) = true.
Proof. vm_cast_no_check (eq_refl true). Qed.

Lemma pattern_syndrome_xor (a b : list byte) :
  List.length a = 40%nat -> List.length b = 40%nat ->
  pattern_syndrome (xor_bytes a b)
  = Z.lxor (pattern_syndrome a) (pattern_syndrome b).
Proof.
  intros Ha Hb. unfold pattern_syndrome.
  assert (Hzero : in_u32 0) by (vm_compute; split; congruence).
  destruct (Verdict.stored_crc_defined a) as [sa Hsa]; [lia |].
  destruct (Verdict.stored_crc_defined b) as [sb Hsb]; [lia |].
  rewrite (Damage.stored_crc_xor a b sa sb Hsa Hsb), Hsa, Hsb.
  rewrite !crc_linear_loop, xor_bytes_firstn.
  change (Z.to_nat (u16 36)) with 36%nat.
  assert (Hstart : SoftCrc.crc_loop (xor_bytes (firstn 36 a) (firstn 36 b)) 36 0
                   = SoftCrc.crc_loop (xor_bytes (firstn 36 a) (firstn 36 b)) 36
                       (Z.lxor 0 0)) by reflexivity.
  rewrite Hstart, crc_loop_xor by (try assumption; rewrite length_firstn; lia).
  destruct (crc_loop_defined 36 (firstn 36 a) 0) as [la Hla];
    [rewrite length_firstn; lia |].
  destruct (crc_loop_defined 36 (firstn 36 b) 0) as [lb Hlb];
    [rewrite length_firstn; lia |].
  rewrite Hla, Hlb. apply lxor_swap.
Qed.

Lemma passing_pattern_syndrome (e : list byte) :
  error_verdict e = IMU_PROT_OK -> pattern_syndrome e = 0.
Proof.
  unfold error_verdict, pattern_syndrome.
  destruct e as [| e0 [| e1 [| e2 [| e3 rest]]]]; try discriminate.
  destruct (negb _); [discriminate |].
  destruct (negb _); [discriminate |].
  destruct (crc_linear _ _) as [l |]; [| discriminate].
  destruct (Wire.stored_crc _) as [stored |]; [| discriminate].
  destruct (Z.eqb_spec l stored) as [-> | _]; [| discriminate].
  intros _. apply Z.lxor_nilpotent.
Qed.

(** No pattern of two distinct flipped bits passes. *)
Lemma double_flip_pattern (i j : nat) :
  (i < 320)%nat -> (j < 320)%nat -> i <> j ->
  error_verdict (flip_bit (flip_bit no_error i) j) <> IMU_PROT_OK.
Proof.
  intros Hi Hj Hne Hok.
  assert (Hlen : forall k, List.length (flip_bit no_error k) = 40%nat)
    by (intros k; rewrite flip_bit_length; reflexivity).
  rewrite (flip_as_damage _ j (Hlen i)) in Hok.
  apply passing_pattern_syndrome in Hok.
  rewrite pattern_syndrome_xor in Hok by apply Hlen.
  apply Z.lxor_eq in Hok.
  apply Hne.
  apply (all_distinct_map (fun k => pattern_syndrome (flip_bit no_error k))
           (seq 0 320) bit_syndromes_distinct i j);
    [apply in_seq; lia | apply in_seq; lia | exact Hok].
Qed.

Lemma check_damaged (buffer e : list byte) :
  List.length buffer = 40%nat ->
  List.length e = 40%nat ->
  checkImuProtBuffer buffer = Some IMU_PROT_OK ->
  checkImuProtBuffer (xor_bytes buffer e) = Some (error_verdict e).
Proof.
  intros Hlen He Hok.
  assert (Hx : (40 <= List.length (xor_bytes buffer e))%nat)
    by (rewrite xor_bytes_length; lia).
  pose proof (Verdict.all_stages protCRC32 Fields.protCRC32_span _ Hx) as Hall.
  fold checkImuProtBuffer in Hall. rewrite Hall.
  rewrite (Damage.damaged_verdict buffer e) by (try lia; assumption).
  reflexivity.
Qed.

Lemma pattern_length (i j : nat) :
  List.length (flip_bit no_error i) = 40%nat /\
  List.length (flip_bit (flip_bit no_error i) j) = 40%nat.
Proof. rewrite !flip_bit_length. split; reflexivity. Qed.

End Flips.

(** X3. One flipped bit anywhere in a valid 40-byte packet is always
    detected, and the verdict tells where: bad header for a bit of bytes 0
    and 1, bad sequencer for a bit of bytes 2 and 3, bad CRC for a bit of
    the payload or of the CRC field. *)
Theorem single_bit_flip_detected (buffer : list byte) (i : nat) :
  List.length buffer = Wire.packet_size ->
  checkImuProtBuffer buffer = Some IMU_PROT_OK ->
  (i < 8 * Wire.packet_size)%nat ->
  checkImuProtBuffer (flip_bit buffer i)
  = Some (if (i <? 16)%nat then IMU_PROT_BAD_HEADER
          else if (i <? 32)%nat then IMU_PROT_BAD_SEQUENCER
          else IMU_PROT_BAD_CRC).
Proof.
  unfold Wire.packet_size. intros Hlen Hok Hi.
  rewrite (Flips.flip_as_damage buffer i Hlen).
  rewrite <- (Flips.single_flip_pattern i) by lia.
  apply Flips.check_damaged; try assumption.
  apply (Flips.pattern_length i 0).
Qed.

Lemma single_bit_flip_detected_witness :
  checkImuProtBuffer (flip_bit sample_packet 27) = Some IMU_PROT_BAD_SEQUENCER.
Proof.
  apply (single_bit_flip_detected sample_packet 27);
    vm_compute; first [reflexivity | lia].
Defined.

(** X4. Two flipped bits anywhere in a valid 40-byte packet are always
    detected: the validator never answers [IMU_PROT_OK]. *)
Theorem double_bit_flip_detected (buffer : list byte) (i j : nat) :
  List.length buffer = Wire.packet_size ->
  checkImuProtBuffer buffer = Some IMU_PROT_OK ->
  (i < 8 * Wire.packet_size)%nat ->
  (j < 8 * Wire.packet_size)%nat ->
  i <> j ->
  exists verdict,
    checkImuProtBuffer (flip_bit (flip_bit buffer i) j) = Some verdict /\
    verdict <> IMU_PROT_OK.
Proof.
  unfold Wire.packet_size. intros Hlen Hok Hi Hj Hne.
  exists (error_verdict (flip_bit (flip_bit no_error i) j)). split.
  - rewrite (Flips.flip_twice_as_damage buffer i j Hlen).
    apply Flips.check_damaged; try assumption.
    apply (Flips.pattern_length i j).
  - apply Flips.double_flip_pattern; lia.
Qed.

Lemma double_bit_flip_detected_witness :
  exists verdict,
    checkImuProtBuffer (flip_bit (flip_bit sample_packet 19) 27) = Some verdict /\
    verdict <> IMU_PROT_OK.
Proof.
  apply (double_bit_flip_detected sample_packet 19 27);
    vm_compute; first [reflexivity | lia | discriminate].
Defined.

(** ** The residue of a checksummed message *)

Module Residue.
Import Corruption.

Lemma crc_bits_add (j k : nat) (x : Z) :
  SoftCrc.crc_bits (j + k) x = SoftCrc.crc_bits k (SoftCrc.crc_bits j x).
Proof.
  revert x. induction j as [| j IH]; intros x; simpl; [reflexivity | apply IH].
Qed.

Lemma low_octet_range (w : Z) : in_u8 (Z.land w 0xff).
Proof.
  change 0xff with (Z.ones 8). rewrite Z.land_ones by lia.
  apply Z.mod_pos_bound. reflexivity.
Qed.

Lemma high_part_range (w : Z) :
  in_u32 w -> in_u32 (Z.shiftl (Z.shiftr w 8) 8).
Proof.
  intros [H0 H1].
  rewrite Z.shiftl_mul_pow2, Z.shiftr_div_pow2 by lia.
  change (2 ^ 8) with 256.
  pose proof (Z.mul_div_le w 256 ltac:(lia)).
  pose proof (Z.div_pos w 256 H0 ltac:(lia)).
  unfold in_u32. lia.
Qed.

(** Eight steps on a register with a word added in: the low octet of the
    word takes part, the rest is added in afterwards. *)
Lemma crc_bits_octet (y w : Z) :
  in_u32 y -> in_u32 w ->
  SoftCrc.crc_bits 8 (Z.lxor y w)
  = Z.lxor (SoftCrc.crc_bits 8 (Z.lxor y (Z.land w 0xff))) (Z.shiftr w 8).
Proof.
  intros Hy Hw.
  rewrite (split_low_octet w) at 1.
  rewrite <- Z.lxor_assoc.
  rewrite CrcAgreement.crc_bits_lxor.
  - f_equal. apply (CrcAgreement.crc_bits_high 8), high_part_range, Hw.
  - apply lxor_u32; [exact Hy | apply in_u8_u32, low_octet_range].
  - apply high_part_range, Hw.
Qed.

Lemma le32_octet (v : Z) (k : Z) :
  byte_to_Z (byte_of_Z (Z.shiftr v (8 * k))) = Z.land (Z.shiftr v (8 * k)) 0xff.
Proof.
  rewrite byte_to_of_Z. unfold u8.
  change 0xff with (Z.ones 8). rewrite Z.land_ones by lia. reflexivity.
Qed.

(** The four octets of [v] in wire order drive the register as 32 steps
    on the register with [v] added in. *)
Lemma crc_loop_le32 (r v : Z) :
  in_u32 r -> in_u32 v ->
  SoftCrc.crc_loop (le32 v) 4 r = Some (SoftCrc.crc_bits 32 (Z.lxor r v)).
Proof.
  intros Hr Hv. unfold le32. cbn [map SoftCrc.crc_loop].
  rewrite !le32_octet. change (8 * 0) with 0. rewrite Z.shiftr_0_r.
  change (8 * 1) with 8. change (8 * 2) with 16. change (8 * 3) with 24.
  f_equal.
  assert (Hv1 : in_u32 (Z.shiftr v 8)) by (apply shiftr_u32; [lia | exact Hv]).
  assert (Hv2 : in_u32 (Z.shiftr v 16)) by (apply shiftr_u32; [lia | exact Hv]).
  assert (Hv3 : in_u32 (Z.shiftr v 24)) by (apply shiftr_u32; [lia | exact Hv]).
  set (r1 := SoftCrc.crc_bits 8 (Z.lxor r (Z.land v 0xff))).
  set (r2 := SoftCrc.crc_bits 8 (Z.lxor r1 (Z.land (Z.shiftr v 8) 0xff))).
  set (r3 := SoftCrc.crc_bits 8 (Z.lxor r2 (Z.land (Z.shiftr v 16) 0xff))).
  assert (Hr1 : in_u32 r1).
  { apply CrcAgreement.crc_bits_range, lxor_u32;
      [exact Hr | apply in_u8_u32, low_octet_range]. }
  assert (Hr2 : in_u32 r2).
  { apply CrcAgreement.crc_bits_range, lxor_u32;
      [exact Hr1 | apply in_u8_u32, low_octet_range]. }
  assert (Hr3 : in_u32 r3).
  { apply CrcAgreement.crc_bits_range, lxor_u32;
      [exact Hr2 | apply in_u8_u32, low_octet_range]. }
  change 32%nat with (8 + (8 + (8 + 8)))%nat.
  rewrite !crc_bits_add.
  rewrite (crc_bits_octet r v Hr Hv). fold r1.
  rewrite (crc_bits_octet r1 _ Hr1 Hv1). fold r2.
  rewrite Z.shiftr_shiftr by lia. change (8 + 8) with 16.
  rewrite (crc_bits_octet r2 _ Hr2 Hv2). fold r3.
  rewrite Z.shiftr_shiftr by lia. change (16 + 8) with 24.
  rewrite (crc_bits_octet r3 _ Hr3 Hv3).
  rewrite Z.shiftr_shiftr by lia. change (24 + 8) with 32.
  replace (Z.shiftr v 32) with 0; [rewrite Z.lxor_0_r; reflexivity |].
  symmetry. rewrite Z.shiftr_div_pow2 by lia. apply Z.div_small, Hv.
Qed.

Lemma crc_loop_app (a t : list byte) (m : nat) :
  forall x : Z,
    SoftCrc.crc_loop (a ++ t) (List.length a + m) x
    = match SoftCrc.crc_loop a (List.length a) x with
      | Some r => SoftCrc.crc_loop t m r
      | None => None
      end.
Proof.
  induction a as [| b a IH]; intros x.
  - reflexivity.
  - cbn [List.length Nat.add app SoftCrc.crc_loop]. apply IH.
Qed.

Lemma residue_register :
  Z.lxor (SoftCrc.crc_bits 32 CRC32_INITIAL) CRC32_INITIAL = CRC32_REMINDER.
Proof. vm_compute. reflexivity. Qed.

(** The register after a message followed by four octets of value [v]. *)
Lemma protCRC32_with_trailer (data : list byte) (v r : Z) :
  Z.of_nat (List.length data) + 4 < 2 ^ 16 ->
  in_u32 v ->
  SoftCrc.crc_loop data (List.length data) CRC32_INITIAL = Some r ->
  protCRC32 (data ++ le32 v) (Z.of_nat (List.length data) + 4)
  = Some (Z.lxor (SoftCrc.crc_bits 32 (Z.lxor r v)) CRC32_INITIAL).
Proof.
  intros Hlen Hv Hr.
  assert (Hinit : in_u32 CRC32_INITIAL) by (vm_compute; split; congruence).
  rewrite protCRC32_loop. unfold u16.
  rewrite Z.mod_small by lia.
  replace (Z.to_nat (Z.of_nat (List.length data) + 4))
    with (List.length data + 4)%nat by lia.
  rewrite crc_loop_app, Hr.
  rewrite crc_loop_le32; [reflexivity | | exact Hv].
  apply (crc_loop_range _ _ _ _ Hinit Hr).
Qed.

End Residue.

(** X5. A message followed by its own CRC32 in wire order always sums to
    the constant [CRC32_REMINDER] = 0x2144DF1C, the value the header
    defines and does not use. *)
Theorem protCRC32_residue (data : list byte) (crc : Z) :
  Z.of_nat (List.length data) + 4 < 2 ^ 16 ->
  protCRC32 data (Z.of_nat (List.length data)) = Some crc ->
  protCRC32 (data ++ le32 crc) (Z.of_nat (List.length data) + 4)
  = Some CRC32_REMINDER.
Proof.
  intros Hlen Hcrc.
  assert (Hinit : in_u32 CRC32_INITIAL) by (vm_compute; split; congruence).
  rewrite Corruption.protCRC32_loop in Hcrc. unfold u16 in Hcrc.
  rewrite Z.mod_small, Nat2Z.id in Hcrc by lia.
  destruct (SoftCrc.crc_loop data (List.length data) CRC32_INITIAL)
    as [r |] eqn:Hr; [| discriminate].
  injection Hcrc as <-.
  assert (Hrange : in_u32 r) by apply (Corruption.crc_loop_range _ _ _ _ Hinit Hr).
  rewrite (Residue.protCRC32_with_trailer data _ r Hlen)
    by (try apply lxor_u32; assumption).
  rewrite <- Z.lxor_assoc, Z.lxor_nilpotent, Z.lxor_0_l.
  rewrite Residue.residue_register. reflexivity.
Qed.

Lemma protCRC32_residue_witness :
  protCRC32 (check_input ++ le32 0xCBF43926) 13 = Some CRC32_REMINDER.
Proof.
  apply (protCRC32_residue check_input 0xCBF43926); vm_compute; reflexivity.
Defined.

Module ResidueCheck.
Import Corruption.

Lemma crc_bit_zero (z : Z) : in_u32 z -> SoftCrc.crc_bit z = 0 -> z = 0.
Proof.
  intros Hz. rewrite CrcAgreement.crc_bit_spec by exact Hz.
  destruct Hz as [H0 H1].
  assert (Hhalf : 0 <= Z.shiftr z 1 < 2 ^ 31).
  { rewrite Z.shiftr_div_pow2 by lia. change (2 ^ 1) with 2.
    change (2 ^ 32) with (2 * 2 ^ 31) in H1.
    split; [apply Z.div_pos; lia | apply Z.div_lt_upper_bound; lia]. }
  destruct (Z.odd z) eqn:Hodd.
  - intros H. apply Z.lxor_eq in H.
    unfold CRC32_POLYNOM in H. change (2 ^ 31) with 2147483648 in Hhalf. lia.
  - rewrite Z.lxor_0_r. intros H.
    rewrite Z.shiftr_div_pow2 in H by lia. change (2 ^ 1) with 2 in H.
    rewrite (Z.div_mod z 2) by lia. rewrite H, Zmod_odd, Hodd. reflexivity.
Qed.

Lemma crc_bits_zero (k : nat) :
  forall z, in_u32 z -> SoftCrc.crc_bits k z = 0 -> z = 0.
Proof.
  induction k as [| k IH]; intros z Hz H; simpl in H; [exact H |].
  apply crc_bit_zero; [exact Hz |].
  apply IH; [apply CrcAgreement.crc_bit_range, Hz | exact H].
Qed.

(** The shift steps lose nothing: equal registers come from equal ones. *)
Lemma crc_bits_inj (k : nat) (a b : Z) :
  in_u32 a -> in_u32 b ->
  SoftCrc.crc_bits k a = SoftCrc.crc_bits k b -> a = b.
Proof.
  intros Ha Hb H. apply Z.lxor_eq_0_iff.
  apply (crc_bits_zero k); [apply lxor_u32; assumption |].
  rewrite CrcAgreement.crc_bits_lxor by assumption.
  apply Z.lxor_eq_0_iff, H.
Qed.

Lemma some_eq {A : Type} (x y : A) : Some x = Some y -> x = y.
Proof. congruence. Qed.

Lemma le32_value (d0 d1 d2 d3 : byte) :
  le32 (byte_to_Z d0 + 2 ^ 8 * byte_to_Z d1
        + 2 ^ 16 * byte_to_Z d2 + 2 ^ 24 * byte_to_Z d3)
  = [d0; d1; d2; d3].
Proof.
  pose proof (byte_to_Z_range d0) as R0. pose proof (byte_to_Z_range d1) as R1.
  pose proof (byte_to_Z_range d2) as R2. pose proof (byte_to_Z_range d3) as R3.
  unfold in_u8 in *. change (2 ^ 8) with 256 in *.
  change (2 ^ 16) with 65536. change (2 ^ 24) with 16777216.
  unfold le32. cbn [map].
  repeat f_equal; apply byte_to_Z_inj; rewrite byte_to_of_Z; unfold u8;
    rewrite Z.shiftr_div_pow2 by lia.
  - change (2 ^ (8 * 0)) with 1. change (2 ^ 8) with 256.
    Z.div_mod_to_equations. lia.
  - change (2 ^ (8 * 1)) with 256. change (2 ^ 8) with 256.
    Z.div_mod_to_equations. lia.
  - change (2 ^ (8 * 2)) with 65536. change (2 ^ 8) with 256.
    Z.div_mod_to_equations. lia.
  - change (2 ^ (8 * 3)) with 16777216. change (2 ^ 8) with 256.
    Z.div_mod_to_equations. lia.
Qed.

Lemma stored_crc_range (buffer : list byte) (stored : Z) :
  Wire.stored_crc buffer = Some stored -> in_u32 stored.
Proof.
  unfold Wire.stored_crc.
  destruct (firstn 4 (skipn 36 buffer)) as [| d0 [| d1 [| d2 [| d3 [| x r]]]]];
    try discriminate.
  intros Hst. apply some_eq in Hst. rewrite <- Hst. clear Hst.
  pose proof (byte_to_Z_range d0). pose proof (byte_to_Z_range d1).
  pose proof (byte_to_Z_range d2). pose proof (byte_to_Z_range d3).
  unfold in_u8, in_u32 in *. change (2 ^ 8) with 256 in *.
  change (2 ^ 16) with 65536. change (2 ^ 24) with 16777216.
  change (2 ^ 32) with 4294967296. lia.
Qed.

(** A 40-byte buffer is its first 36 bytes followed by its CRC field. *)
Lemma packet_split (buffer : list byte) (stored : Z) :
  List.length buffer = 40%nat ->
  Wire.stored_crc buffer = Some stored ->
  buffer = firstn 36 buffer ++ le32 stored.
Proof.
  intros Hlen Hst. rewrite <- (firstn_skipn 36 buffer) at 1. f_equal.
  unfold Wire.stored_crc in Hst.
  pose proof (length_skipn 36 buffer) as Hs. rewrite Hlen in Hs.
  destruct (skipn 36 buffer) as [| d0 [| d1 [| d2 [| d3 [| x r]]]]];
    try discriminate.
  cbn [firstn] in Hst. apply some_eq in Hst. rewrite <- Hst.
  symmetry. apply le32_value.
Qed.

Lemma crc_ok_residue (buffer : list byte) :
  List.length buffer = 40%nat ->
  Wire.crc_ok buffer = true <-> protCRC32 buffer 40 = Some CRC32_REMINDER.
Proof.
  intros Hlen.
  assert (Hinit : in_u32 CRC32_INITIAL) by (vm_compute; split; congruence).
  destruct (Verdict.stored_crc_defined buffer) as [stored Hst]; [lia |].
  pose proof (stored_crc_range buffer stored Hst) as Hsr.
  assert (H36 : List.length (firstn 36 buffer) = 36%nat)
    by (rewrite length_firstn; lia).
  destruct (crc_loop_defined 36 (firstn 36 buffer) CRC32_INITIAL) as [r Hr];
    [lia |].
  assert (Hrr : in_u32 r) by apply (crc_loop_range _ _ _ _ Hinit Hr).
  unfold Wire.crc_ok. rewrite Hst, protCRC32_loop.
  change (Z.to_nat (u16 36)) with 36%nat. rewrite Hr.
  rewrite (packet_split buffer stored Hlen Hst) at 1.
  pose proof (Residue.protCRC32_with_trailer (firstn 36 buffer) stored r) as Ht.
  rewrite H36 in Ht. change (Z.of_nat 36 + 4) with 40 in Ht.
  rewrite Ht by (try assumption; reflexivity).
  rewrite <- Residue.residue_register.
  split; intros H.
  - apply Z.eqb_eq in H. rewrite <- H.
    rewrite <- Z.lxor_assoc, Z.lxor_nilpotent, Z.lxor_0_l. reflexivity.
  - apply Z.eqb_eq. apply some_eq in H.
    rewrite (Z.lxor_comm (SoftCrc.crc_bits 32 (Z.lxor r stored))) in H.
    rewrite (Z.lxor_comm (SoftCrc.crc_bits 32 CRC32_INITIAL)) in H.
    apply Damage.lxor_cancel_l in H.
    apply crc_bits_inj in H; [| apply lxor_u32; assumption | assumption].
    rewrite <- H, <- Z.lxor_assoc, Z.lxor_nilpotent, Z.lxor_0_l. reflexivity.
Qed.

End ResidueCheck.

(** X6. On a 40-byte buffer with a good header and sequencer pair, the
    validator answers [IMU_PROT_OK] exactly when the CRC32 of all 40
    bytes, CRC field included, is [CRC32_REMINDER]. *)
Theorem valid_iff_residue (buffer : list byte) :
  List.length buffer = Wire.packet_size ->
  Wire.header_ok buffer = true ->
  Wire.sequencer_ok buffer = true ->
  (checkImuProtBuffer buffer = Some IMU_PROT_OK <->
   protCRC32 buffer 40 = Some CRC32_REMINDER).
Proof.
  unfold Wire.packet_size. intros Hlen Hhdr Hseq.
  rewrite <- (ResidueCheck.crc_ok_residue buffer Hlen).
  pose proof (Verdict.all_stages protCRC32 Fields.protCRC32_span buffer
                ltac:(lia)) as Hall.
  fold checkImuProtBuffer in Hall. rewrite Hall.
  unfold Wire.verdict. rewrite Hhdr, Hseq. cbn [negb].
  destruct (Wire.crc_ok buffer); cbn [negb]; split; intros H;
    first [reflexivity | discriminate].
Qed.

Lemma valid_iff_residue_witness :
  checkImuProtBuffer sample_packet = Some IMU_PROT_OK <->
  protCRC32 sample_packet 40 = Some CRC32_REMINDER.
Proof.
  apply (valid_iff_residue sample_packet); vm_compute; reflexivity.
Defined.

(** ** Buffers shorter than a packet *)

Module Short.

Lemma header_missing (buffer : list byte) :
  (List.length buffer < 2)%nat -> checkImuProtBuffer buffer = None.
Proof.
  intros Hlen. unfold checkImuProtBuffer, checkImuProtBuffer_with.
  rewrite Fields.prot_header_wire.
  destruct buffer as [| b0 [| b1 rest]]; simpl in Hlen; try lia; reflexivity.
Qed.

Lemma header_passed (buffer : list byte) :
  Wire.header_ok buffer = true ->
  checkImuProtBuffer buffer
  = (ff <- prot_ff_sequencer buffer ;;
     seq <- prot_sequencer buffer ;;
     if negb (seq =? u8 (Z.lnot ff)) then Some IMU_PROT_BAD_SEQUENCER
     else
       crc <- protCRC32 buffer crc_span ;;
       stored <- prot_crc32 buffer ;;
       if negb (crc =? stored) then Some IMU_PROT_BAD_CRC
       else Some IMU_PROT_OK).
Proof.
  intros Hhdr. unfold checkImuProtBuffer, checkImuProtBuffer_with.
  rewrite Fields.prot_header_wire. unfold Wire.header_ok in Hhdr.
  destruct (nth_error buffer 0) as [b0 |]; [| discriminate].
  destruct (nth_error buffer 1) as [b1 |]; [| discriminate].
  cbn [bind]. unfold IMU_PROT_HEADER. rewrite Z.eqb_sym, Hhdr. reflexivity.
Qed.

Lemma sequencer_missing (buffer : list byte) :
  Wire.header_ok buffer = true ->
  (List.length buffer < 4)%nat -> checkImuProtBuffer buffer = None.
Proof.
  intros Hhdr Hlen. rewrite (header_passed buffer Hhdr).
  unfold prot_ff_sequencer, read_u8.
  change (prot_offset ["ff_sequencer"%string]) with 3%nat.
  assert (Hno : nth_error buffer 3 = None) by (apply nth_error_None; lia).
  rewrite Hno. reflexivity.
Qed.

Lemma crc_missing (buffer : list byte) :
  Wire.header_ok buffer = true ->
  Wire.sequencer_ok buffer = true ->
  (List.length buffer < 40)%nat -> checkImuProtBuffer buffer = None.
Proof.
  intros Hhdr Hseq Hlen. rewrite (header_passed buffer Hhdr).
  unfold Wire.sequencer_ok in Hseq.
  unfold prot_ff_sequencer, prot_sequencer, read_u8.
  change (prot_offset ["ff_sequencer"%string]) with 3%nat.
  change (prot_offset ["sequencer"%string]) with 2%nat.
  destruct (nth_error buffer 2) as [s |]; [| discriminate].
  destruct (nth_error buffer 3) as [f |]; [| discriminate].
  cbn [option_map bind].
  rewrite Fields.lnot_complement8 by apply byte_to_Z_range.
  rewrite Hseq. cbn [negb].
  destruct (protCRC32 buffer crc_span) as [crc |]; [| reflexivity].
  cbn [bind]. rewrite Fields.prot_crc32_wire.
  unfold Wire.stored_crc.
  pose proof (length_skipn 36 buffer) as Hs.
  destruct (skipn 36 buffer) as [| d0 [| d1 [| d2 [| d3 rest]]]];
    try reflexivity.
  simpl in Hs. lia.
Qed.

End Short.

(** X7. The validator on a buffer of any length: it has a defined answer
    exactly when the buffer holds every byte the checks it reaches need,
    which is 2 bytes when the header is wrong, 4 when the sequencer pair
    is wrong and 40 otherwise; no shorter buffer is ever answered
    [IMU_PROT_OK] or [IMU_PROT_BAD_CRC]. *)
Theorem verdict_on_any_length (buffer : list byte) :
  checkImuProtBuffer buffer
  = (if (List.length buffer <? 2)%nat then None
     else if negb (Wire.header_ok buffer) then Some IMU_PROT_BAD_HEADER
     else if (List.length buffer <? 4)%nat then None
     else if negb (Wire.sequencer_ok buffer) then Some IMU_PROT_BAD_SEQUENCER
     else if (List.length buffer <? 40)%nat then None
     else Some (if Wire.crc_ok buffer then IMU_PROT_OK else IMU_PROT_BAD_CRC))
  /\ SoftBuild.checkImuProtBuffer buffer = checkImuProtBuffer buffer.
Proof.
  split; [| apply Verdict.builds_agree].
  destruct (Nat.ltb_spec (List.length buffer) 2) as [H2 | H2];
    [apply Short.header_missing, H2 |].
  destruct (Wire.header_ok buffer) eqn:Hhdr; cbn [negb];
    [| apply Verdict.header_stage; assumption].
  destruct (Nat.ltb_spec (List.length buffer) 4) as [H4 | H4];
    [apply Short.sequencer_missing; assumption |].
  destruct (Wire.sequencer_ok buffer) eqn:Hseq; cbn [negb];
    [| apply Verdict.sequencer_stage; assumption].
  destruct (Nat.ltb_spec (List.length buffer) 40) as [H40 | H40];
    [apply Short.crc_missing; assumption |].
  pose proof (Verdict.all_stages protCRC32 Fields.protCRC32_span buffer H40)
    as Hall.
  fold checkImuProtBuffer in Hall. rewrite Hall.
  unfold Wire.verdict. rewrite Hhdr, Hseq. cbn [negb].
  destruct (Wire.crc_ok buffer); reflexivity.
Qed.

(** ** Temperature, there and back *)

Module KelvinTable.

Lemma centi_nearest : f32_div (f32_of_Z 1) (f32_of_Z 100) = f32_centi.
Proof. vm_compute. reflexivity. Qed.

Lemma kelvin_chain_spec (n : nat) :
  forall k : Z,
    0 <= k -> k + Z.of_nat n <= 2 ^ 16 ->
    kelvin_chain n k (tempFromKelvin k) = true ->
    forall z : Z,
      k <= z < k + Z.of_nat n ->
      tempToKelvin (tempFromKelvin z) = Some z /\
      (z + 1 < k + Z.of_nat n ->
       f32_ltb (tempFromKelvin z) (tempFromKelvin (z + 1)) = true).
Proof.
  induction n as [| n IH]; intros k Hk Hn Hchain z Hz; [lia |].
  cbn [kelvin_chain] in Hchain.
  apply andb_true_iff in Hchain. destruct Hchain as [Hchain Hrest].
  apply andb_true_iff in Hchain. destruct Hchain as [Hback Hnext].
  destruct (Z.eq_dec z k) as [-> | Hne].
  - split.
    + destruct (tempToKelvin (tempFromKelvin k)) as [v |]; [| discriminate].
      apply Z.eqb_eq in Hback. rewrite Hback. reflexivity.
    + intros Hmore. apply orb_true_iff in Hnext.
      destruct Hnext as [Hlast | Hlt]; [| exact Hlt].
      apply Nat.eqb_eq in Hlast. lia.
  - destruct (IH (k + 1) ltac:(lia) ltac:(lia) Hrest z ltac:(lia)) as [Hb Hl].
    split; [exact Hb |]. intros Hmore. apply Hl. lia.
Qed.

Lemma whole_table : kelvin_chain (Z.to_nat 65536) 0 (tempFromKelvin 0) = true.
Proof. vm_cast_no_check (eq_refl true). Qed.

Lemma table_entry (z : Z) :
  0 <= z < 2 ^ 16 ->
  tempToKelvin (tempFromKelvin z) = Some z /\
  (z + 1 < 2 ^ 16 ->
   f32_ltb (tempFromKelvin z) (tempFromKelvin (z + 1)) = true).
Proof.
  intros Hz.
  apply (kelvin_chain_spec (Z.to_nat 65536) 0); try exact whole_table;
    rewrite ?Z2Nat.id by lia; change (2 ^ 16) with 65536 in *; lia.
Qed.

End KelvinTable.

(** X8. Every raw temperature survives the round trip: converting a
    [uint16_t] count of centi-Kelvin to Celsius with [tempFromKelvin] and
    back with [tempToKelvin] returns the count, with no overflow of the
    conversion on the way. *)
Theorem temperature_round_trip (k : Z) :
  0 <= k < 2 ^ 16 ->
  tempToKelvin (tempFromKelvin k) = Some k.
Proof. intros Hk. apply (KelvinTable.table_entry k Hk). Qed.

Lemma temperature_round_trip_witness :
  tempToKelvin (tempFromKelvin 0x7981) = Some 0x7981.
Proof. apply (temperature_round_trip 0x7981). vm_compute. split; congruence. Defined.

(** X9. [tempFromKelvin] is strictly increasing from each raw temperature
    to the next: one more centi-Kelvin always gives a larger binary32
    Celsius value. *)
Theorem tempFromKelvin_increasing (k : Z) :
  0 <= k -> k + 1 < 2 ^ 16 ->
  f32_ltb (tempFromKelvin k) (tempFromKelvin (k + 1)) = true.
Proof.
  intros H0 H1. apply (KelvinTable.table_entry k); [| exact H1].
  change (2 ^ 16) with 65536 in *. lia.
Qed.

Lemma tempFromKelvin_increasing_witness :
  f32_ltb (tempFromKelvin 27315) (tempFromKelvin 27316) = true.
Proof.
  apply (tempFromKelvin_increasing 27315); vm_compute; congruence.
Defined.

(** ** Fixed-point samples as floats *)

Module Samples.

Lemma digits_size (p : positive) : digits2_pos p = Pos.size p.
Proof. induction p as [p IH | p IH |]; simpl; rewrite ?IH; reflexivity. Qed.

Lemma digits_bound (p : positive) :
  Zpos p < 2 ^ 24 -> Zpos (digits2_pos p) <= 24.
Proof.
  intros Hp. rewrite digits_size.
  pose proof (Pos.size_le p) as Hle.
  assert (H2 : 2 ^ Zpos (Pos.size p) <= 2 * Zpos p).
  { rewrite <- Pos2Z.inj_pow. change (2 * Zpos p) with (Zpos p~0). lia. }
  destruct (Z.le_gt_cases (Zpos (Pos.size p)) 24) as [H | H]; [exact H |].
  exfalso.
  assert (2 ^ 25 <= 2 ^ Zpos (Pos.size p)) by (apply Z.pow_le_mono_r; lia).
  change (2 ^ 25) with (2 * 2 ^ 24) in *. lia.
Qed.

Lemma iter_xO_value (p k : positive) :
  Zpos (Pos.iter xO p k) = Zpos p * 2 ^ Zpos k.
Proof.
  induction k as [| k IH] using Pos.peano_ind.
  - simpl. lia.
  - rewrite Pos.iter_succ, Pos2Z.inj_succ, Z.pow_succ_r by lia.
    rewrite Pos2Z.inj_xO, IH. lia.
Qed.

Lemma iter_xO_digits (p k : positive) :
  digits2_pos (Pos.iter xO p k) = (digits2_pos p + k)%positive.
Proof.
  induction k as [| k IH] using Pos.peano_ind.
  - simpl. lia.
  - rewrite Pos.iter_succ. cbn [digits2_pos]. rewrite IH. lia.
Qed.

Lemma round_aux_exact (s : bool) (m : positive) (e : Z) :
  digits2_pos m = 24%positive -> -149 <= e <= 104 ->
  binary_round_aux 24 128 s (Zpos m) e loc_Exact = S754_finite s m e.
Proof.
  intros Hd He. unfold binary_round_aux, shr_fexp, fexp, Zdigits2, emin.
  rewrite Hd. cbn [shr_record_of_loc].
  replace (Z.max (24 + e - 24) (3 - 128 - 24) - e) with 0 by lia.
  cbn [shr shr_m loc_of_shr_record round_nearest_even Zdigits2].
  rewrite Hd.
  replace (Z.max (24 + e - 24) (3 - 128 - 24) - e) with 0 by lia.
  cbn [shr shr_m shr_record_of_loc].
  replace (e <=? 128 - 24) with true by (symmetry; apply Z.leb_le; lia).
  reflexivity.
Qed.

Lemma round_aux_scaled (s : bool) (m : positive) (e : Z) :
  digits2_pos m = 24%positive -> -172 <= e <= 81 ->
  binary_round_aux 24 128 s (Zpos (8388608 * m)) e loc_Exact
  = S754_finite s m (e + 23).
Proof.
  intros Hd He. unfold binary_round_aux, shr_fexp, fexp, Zdigits2, emin.
  cbn [Pos.mul digits2_pos]. rewrite Hd. cbn [Pos.succ].
  replace (Z.max (47 + e - 24) (3 - 128 - 24) - e) with 23 by lia.
  cbn [shr shr_record_of_loc iter_pos shr_1 orb].
  cbn [shr_m loc_of_shr_record round_nearest_even Zdigits2].
  rewrite Hd.
  replace (Z.max (24 + (e + 23) - 24) (3 - 128 - 24) - (e + 23)) with 0 by lia.
  cbn [shr shr_m shr_record_of_loc].
  replace (e + 23 <=? 128 - 24) with true by (symmetry; apply Z.leb_le; lia).
  reflexivity.
Qed.

(** An integer of at most 24 bits converts to [float] without rounding. *)
Lemma round_small (s : bool) (p : positive) :
  Zpos p < 2 ^ 24 ->
  exists m e,
    binary_round 24 128 s p 0 = S754_finite s m e /\
    digits2_pos m = 24%positive /\
    -23 <= e <= 0 /\
    Zpos m = Zpos p * 2 ^ (- e).
Proof.
  intros Hp. pose proof (digits_bound p Hp) as Hd.
  unfold binary_round, shl_align, fexp, emin.
  replace (Z.max (Zpos (digits2_pos p) + 0 - 24) (3 - 128 - 24))
    with (Zpos (digits2_pos p) - 24) by lia.
  destruct (Zpos (digits2_pos p) - 24 - 0) as [| q | q] eqn:Hq; [| lia |].
  - exists p, 0. rewrite round_aux_exact by lia.
    repeat split; try lia.
  - exists (Pos.iter xO p q), (Zpos (digits2_pos p) - 24).
    assert (Hdig : digits2_pos (Pos.iter xO p q) = 24%positive)
      by (rewrite iter_xO_digits; lia).
    rewrite round_aux_exact by (try exact Hdig; lia).
    repeat split; try lia; try exact Hdig.
    rewrite iter_xO_value. f_equal. f_equal. lia.
Qed.

Lemma scale_value : IMU_PROT_SCALE = S754_finite false 8388608 (-39).
Proof. vm_compute. reflexivity. Qed.

Lemma s32_small (d : Z) : - 2 ^ 31 <= d < 2 ^ 31 -> s32 d = d.
Proof.
  intros Hd. unfold s32, u32.
  change (2 ^ 31) with 2147483648 in *. change (2 ^ 32) with 4294967296.
  destruct (Z.ltb_spec (d mod 4294967296) 2147483648) as [H | H];
    Z.div_mod_to_equations; lia.
Qed.

Lemma floatData_small (s : bool) (p : positive) :
  Zpos p < 2 ^ 24 ->
  f32_exactly (f32_mul IMU_PROT_SCALE (binary_round 24 128 s p 0))
    (cond_Zopp s (Zpos p)) 16.
Proof.
  intros Hp. destruct (round_small s p Hp) as (m & e & -> & Hd & He & Hm).
  rewrite scale_value. unfold f32_mul, SFmul.
  rewrite round_aux_scaled by (try exact Hd; lia).
  cbn [xorb f32_exactly]. split; [lia |].
  replace (- (-39 + e + 23 + 16)) with (- e) by lia.
  destruct s; cbn [cond_Zopp]; lia.
Qed.

End Samples.

(** X10. [floatData] is exact on every sample of magnitude below 2^24
    (below 256.0 in Q15.16): the float returned is the sample divided by
    65536, with no rounding and with the sign of the sample, and it is
    the positive zero for the sample 0. *)
Theorem floatData_exact (data : Z) :
  - 2 ^ 24 < data < 2 ^ 24 ->
  f32_exactly (floatData data) data 16 /\
  (data = 0 -> floatData data = S754_zero false).
Proof.
  intros Hd. split; [| intros ->; vm_compute; reflexivity].
  unfold floatData.
  rewrite Samples.s32_small
    by (change (2 ^ 24) with 16777216 in Hd;
        change (2 ^ 31) with 2147483648; lia).
  unfold f32_of_Z, binary_normalize.
  destruct data as [| p | p].
  - rewrite Samples.scale_value. reflexivity.
  - apply (Samples.floatData_small false p). lia.
  - apply (Samples.floatData_small true p). lia.
Qed.

Lemma floatData_exact_witness :
  f32_exactly (floatData (-0x0937)) (-0x0937) 16 /\
  floatData 0 = S754_zero false.
Proof.
  split.
  - apply (proj1 (floatData_exact (-0x0937)
                    ltac:(vm_compute; split; reflexivity))).
  - apply (proj2 (floatData_exact 0 ltac:(vm_compute; split; reflexivity))).
    reflexivity.
Defined.

(** ** Hex ingestion *)

Module Hex.

Lemma parse_octet (b : byte) (rest : string) :
  hexStringToByteArray (format_02X b ++ rest)
  = b :: hexStringToByteArray rest.
Proof. destruct b; reflexivity. Qed.

Lemma pairs_ind (P : string -> Prop) :
  P EmptyString ->
  (forall c, P (String c EmptyString)) ->
  (forall c0 c1 rest, P rest -> P (String c0 (String c1 rest))) ->
  forall s, P s.
Proof.
  intros H0 H1 H2.
  fix IH 1. intros [| c0 [| c1 rest]].
  - exact H0.
  - apply H1.
  - apply H2, IH.
Qed.

Lemma half_succ_succ (n : nat) : (S (S n) / 2 = S (n / 2))%nat.
Proof.
  replace (S (S n)) with (n + 1 * 2)%nat by lia.
  rewrite Nat.div_add by lia. lia.
Qed.

End Hex.

(** X11. [hexStringToByteArray] reads back what [%02X] spells: the bytes
    of any array, written as two upper-case hexadecimal digits each, are
    recovered exactly, zero bytes included. *)
Theorem hex_round_trip (byteArray : list byte) :
  hexStringToByteArray (hex_of_bytes byteArray) = byteArray.
Proof.
  induction byteArray as [| b rest IH]; [reflexivity |].
  cbn [hex_of_bytes]. rewrite Hex.parse_octet, IH. reflexivity.
Qed.

(** X12. [hexStringToByteArray] stores [strlen / 2] bytes, rounding down:
    nothing for an empty or one-character string, and the last character
    of a string of odd length is left out. *)
Theorem hex_length (hexString : string) :
  List.length (hexStringToByteArray hexString)
  = (c_strlen hexString / 2)%nat.
Proof.
  induction hexString as [| c | c0 c1 rest IH] using Hex.pairs_ind.
  - reflexivity.
  - cbn [hexStringToByteArray c_strlen]. destruct (Ascii.eqb c zero); reflexivity.
  - cbn [hexStringToByteArray c_strlen].
    destruct (Ascii.eqb c0 zero); [reflexivity |].
    destruct (Ascii.eqb c1 zero); [reflexivity |].
    cbn [orb List.length]. rewrite IH, Hex.half_succ_succ. reflexivity.
Qed.

(** ** The example driver *)

Module Driver.

Lemma read_u8_defined (b : list byte) (i : nat) :
  (i < List.length b)%nat -> exists v, read_u8 b i = Some v.
Proof.
  intros Hi. unfold read_u8.
  destruct (Verdict.nth_error_in b i Hi) as [x ->]. eexists. reflexivity.
Qed.

Lemma read_u16_defined (b : list byte) (i : nat) :
  (i + 2 <= List.length b)%nat -> exists v, read_u16 b i = Some v.
Proof.
  intros Hi. unfold read_u16.
  destruct (read_u8_defined b i ltac:(lia)) as [v0 ->].
  destruct (read_u8_defined b (i + 1) ltac:(lia)) as [v1 ->].
  eexists. reflexivity.
Qed.

Lemma read_u32_defined (b : list byte) (i : nat) :
  (i + 4 <= List.length b)%nat -> exists v, read_u32 b i = Some v.
Proof.
  intros Hi. unfold read_u32.
  destruct (read_u8_defined b i ltac:(lia)) as [v0 ->].
  destruct (read_u8_defined b (i + 1) ltac:(lia)) as [v1 ->].
  destruct (read_u8_defined b (i + 2) ltac:(lia)) as [v2 ->].
  destruct (read_u8_defined b (i + 3) ltac:(lia)) as [v3 ->].
  eexists. reflexivity.
Qed.

Lemma read_u16_prefix (b : list byte) (k i : nat) :
  (i + 2 <= k)%nat -> read_u16 (firstn k b) i = read_u16 b i.
Proof.
  intros Hi. unfold read_u16. rewrite !Verdict.read_u8_prefix by lia.
  reflexivity.
Qed.

Lemma read_u32_prefix (b : list byte) (k i : nat) :
  (i + 4 <= k)%nat -> read_u32 (firstn k b) i = read_u32 b i.
Proof.
  intros Hi. unfold read_u32. rewrite !Verdict.read_u8_prefix by lia.
  reflexivity.
Qed.

(** The printed fields are those of the first 40 bytes. *)
Lemma packet_fields_prefix (b : list byte) (check : Z) :
  packet_fields (firstn 40 b) check = packet_fields b check.
Proof.
  unfold packet_fields. rewrite Verdict.check_prefix.
  unfold prot_header, prot_sequencer, prot_temperature, prot_gyro, prot_accl,
    prot_crc32.
  change (prot_offset ["header"%string]) with 0%nat.
  change (prot_offset ["sequencer"%string]) with 2%nat.
  change (prot_offset ["data"; "temperature"]%string) with 10%nat.
  change (prot_offset ["data"; "gyro"]%string) with 12%nat.
  change (prot_offset ["data"; "accl"]%string) with 24%nat.
  change (prot_offset ["crc32"%string]) with 36%nat.
  rewrite !read_u16_prefix, !read_u32_prefix, !Verdict.read_u8_prefix
    by (cbn; lia).
  reflexivity.
Qed.

Lemma error_text_ok (v : ImuProtError_t) :
  ImuProtErrorToString (error_code v) = "OK."%string <-> error_code v = 0.
Proof. destruct v; cbn; split; intros H; first [reflexivity | discriminate]. Qed.

Lemma packet_fields_defined (b : list byte) (check : Z) :
  (40 <= List.length b)%nat ->
  exists line,
    packet_fields b check = Some line /\
    ln_result line = error_code (Wire.verdict b) /\
    ln_check line = check /\
    Wire.stored_crc b = Some (ln_crc32 line) /\
    (ln_text line = "OK."%string <-> ln_result line = 0).
Proof.
  intros Hlen. unfold packet_fields.
  pose proof (Verdict.all_stages protCRC32 Fields.protCRC32_span b Hlen) as Hall.
  fold checkImuProtBuffer in Hall. rewrite Hall. cbn [bind].
  unfold prot_header, prot_sequencer, prot_temperature, prot_gyro, prot_accl.
  change (prot_offset ["header"%string]) with 0%nat.
  change (prot_offset ["sequencer"%string]) with 2%nat.
  change (prot_offset ["data"; "temperature"]%string) with 10%nat.
  change (prot_offset ["data"; "gyro"]%string) with 12%nat.
  change (prot_offset ["data"; "accl"]%string) with 24%nat.
  destruct (read_u16_defined b 0 ltac:(lia)) as [header ->].
  destruct (read_u8_defined b 2 ltac:(lia)) as [sequencer ->].
  destruct (read_u16_defined b 10 ltac:(lia)) as [temperature ->].
  destruct (read_u32_defined b (12 + 4 * 0) ltac:(lia)) as [gx ->].
  destruct (read_u32_defined b (12 + 4 * 1) ltac:(lia)) as [gy ->].
  destruct (read_u32_defined b (12 + 4 * 2) ltac:(lia)) as [gz ->].
  destruct (read_u32_defined b (24 + 4 * 0) ltac:(lia)) as [ax ->].
  destruct (read_u32_defined b (24 + 4 * 1) ltac:(lia)) as [ay ->].
  destruct (read_u32_defined b (24 + 4 * 2) ltac:(lia)) as [az ->].
  rewrite Fields.prot_crc32_wire.
  destruct (Verdict.stored_crc_defined b Hlen) as [stored Hst]. rewrite Hst.
  cbn [bind]. eexists. split; [reflexivity |].
  cbn [ln_result ln_check ln_crc32 ln_text].
  repeat split; try reflexivity; apply error_text_ok.
Qed.

Lemma store_fits (stack written : list byte) :
  (List.length written <= List.length stack)%nat ->
  exists buffer,
    store_bytes stack written = Some buffer /\
    List.length buffer = List.length stack /\
    forall k, (k <= List.length written)%nat ->
              firstn k buffer = firstn k written.
Proof.
  intros Hfit. unfold store_bytes.
  replace (List.length written <=? List.length stack)%nat with true
    by (symmetry; apply Nat.leb_le; exact Hfit).
  eexists. split; [reflexivity |]. split.
  - rewrite length_app, length_skipn. lia.
  - intros k Hk. rewrite firstn_app.
    replace (k - List.length written)%nat with 0%nat by lia.
    rewrite firstn_0, app_nil_r. reflexivity.
Qed.

(** With the CRC test passed, the stored field is the computed value. *)
Lemma valid_columns (b : list byte) (crc : Z) :
  (40 <= List.length b)%nat ->
  error_code (Wire.verdict b) = 0 ->
  protCRC32 (firstn 36 b) 36 = Some crc ->
  Wire.stored_crc b = Some crc.
Proof.
  intros Hlen Hok Hcrc. unfold Wire.verdict in Hok.
  destruct (Wire.header_ok b); cbn [negb] in Hok; [| discriminate].
  destruct (Wire.sequencer_ok b); cbn [negb] in Hok; [| discriminate].
  destruct (Wire.crc_ok b) eqn:Hc; cbn [negb] in Hok; [| discriminate].
  unfold Wire.crc_ok in Hc. rewrite Hcrc in Hc.
  destruct (Wire.stored_crc b) as [stored |]; [| discriminate].
  apply Z.eqb_eq in Hc. rewrite Hc. reflexivity.
Qed.

End Driver.

Module DriverFacts.
Import Driver.

Lemma printPacket_prefix (b : list byte) :
  DriverV2.printPacket (firstn 40 b) = DriverV2.printPacket b.
Proof.
  unfold DriverV2.printPacket.
  change (Z.of_nat (sizeof (ImuProt_t true)) - 4) with crc_span.
  rewrite (Fields.protCRC32_span (firstn 40 b)), (Fields.protCRC32_span b).
  rewrite firstn_firstn. change (Nat.min 36 40) with 36%nat.
  destruct (protCRC32 (firstn 36 b) 36) as [crc |]; [| reflexivity].
  cbn [bind]. rewrite packet_fields_prefix.
  unfold prot_ff_sequencer.
  change (prot_offset ["ff_sequencer"%string]) with 3%nat.
  rewrite Verdict.read_u8_prefix by lia. reflexivity.
Qed.

Lemma printPacket_defined (b : list byte) :
  (40 <= List.length b)%nat ->
  exists ff line,
    DriverV2.printPacket b = Some (ff, line) /\
    ln_result line = error_code (Wire.verdict b) /\
    (ln_result line = 0 -> ln_crc32 line = ln_check line) /\
    (ln_text line = "OK."%string <-> ln_result line = 0).
Proof.
  intros Hlen. unfold DriverV2.printPacket.
  change (Z.of_nat (sizeof (ImuProt_t true)) - 4) with crc_span.
  rewrite Fields.protCRC32_span.
  destruct (CrcLoops.protCRC32_total (firstn 36 b) 36) as (crc & _ & Hcrc).
  { rewrite length_firstn. change (Z.to_nat (u16 36)) with 36%nat. lia. }
  rewrite Hcrc. cbn [bind].
  destruct (packet_fields_defined b crc Hlen)
    as (line & -> & Hres & Hchk & Hst & Htext).
  cbn [bind]. unfold prot_ff_sequencer.
  change (prot_offset ["ff_sequencer"%string]) with 3%nat.
  destruct (read_u8_defined b 3 ltac:(lia)) as [ff ->]. cbn [bind].
  exists ff, line. repeat split; try assumption; try apply Htext.
  intros Hok. rewrite Hres in Hok.
  pose proof (valid_columns b crc Hlen Hok Hcrc) as Hsame.
  rewrite Hst in Hsame. rewrite Hchk. congruence.
Qed.

Lemma short_string_empty (s : string) :
  (c_strlen s < 2)%nat -> hexStringToByteArray s = [].
Proof.
  destruct s as [| c0 [| c1 rest]]; try reflexivity.
  cbn [c_strlen hexStringToByteArray].
  destruct (Ascii.eqb c0 zero); [reflexivity |].
  destruct (Ascii.eqb c1 zero); [reflexivity |].
  intros H. lia.
Qed.

End DriverFacts.

(** X13. The second driver, given a hex string spelling between 40 and
    256 bytes, prints the line of the first 40 spelled bytes whatever the
    array held before: their verdict, the text "OK." exactly for verdict
    0, and with verdict 0 a stored CRC equal to the computed one. *)
Theorem driver_v2_judges_spelled_packet (stack : list byte) (packetHex : string) :
  List.length stack = 256%nat ->
  (40 <= List.length (hexStringToByteArray packetHex) <= 256)%nat ->
  DriverV2.parsePacket stack packetHex
  = DriverV2.printPacket (firstn 40 (hexStringToByteArray packetHex)) /\
  exists ff line,
    DriverV2.parsePacket stack packetHex = Some (ff, line) /\
    ln_result line
    = error_code (Wire.verdict (firstn 40 (hexStringToByteArray packetHex))) /\
    (ln_result line = 0 -> ln_crc32 line = ln_check line) /\
    (ln_text line = "OK."%string <-> ln_result line = 0).
Proof.
  intros Hstack [Hmin Hmax].
  set (written := hexStringToByteArray packetHex) in *.
  destruct (Driver.store_fits stack written ltac:(lia))
    as (buffer & Hstore & Hblen & Hpre).
  assert (Hparse : DriverV2.parsePacket stack packetHex
                   = DriverV2.printPacket (firstn 40 written)).
  { unfold DriverV2.parsePacket. fold written. rewrite Hstore. cbn [bind].
    rewrite <- DriverFacts.printPacket_prefix, (Hpre 40%nat Hmin).
    reflexivity. }
  split; [exact Hparse |]. rewrite Hparse.
  apply DriverFacts.printPacket_defined.
  rewrite length_firstn. lia.
Qed.

Lemma driver_v2_judges_spelled_packet_witness :
  DriverV2.parsePacket (repeat xff 256) sample_packet_hex
  = DriverV2.printPacket (firstn 40 (hexStringToByteArray sample_packet_hex)).
Proof.
  apply (driver_v2_judges_spelled_packet (repeat xff 256) sample_packet_hex).
  - reflexivity.
  - vm_compute. split; lia.
Defined.

(** X14. The second driver on an over-long or empty hex string: more than
    256 spelled bytes overrun the array, and a string of fewer than two
    characters stores nothing, so that the line printed is that of
    whatever the array held, "OK." included when that is a valid packet. *)
Theorem driver_v2_edge_inputs (stack : list byte) (packetHex : string) :
  List.length stack = 256%nat ->
  ((256 < List.length (hexStringToByteArray packetHex))%nat ->
   DriverV2.parsePacket stack packetHex = None) /\
  ((c_strlen packetHex < 2)%nat ->
   DriverV2.parsePacket stack packetHex = DriverV2.printPacket stack /\
   (checkImuProtBuffer stack = Some IMU_PROT_OK ->
    exists ff line,
      DriverV2.parsePacket stack packetHex = Some (ff, line) /\
      ln_result line = 0 /\
      ln_text line = "OK."%string)).
Proof.
  intros Hstack. split.
  - intros Hlong. unfold DriverV2.parsePacket, store_bytes.
    replace (List.length (hexStringToByteArray packetHex) <=? List.length stack)%nat
      with false by (symmetry; apply Nat.leb_gt; lia).
    reflexivity.
  - intros Hshort.
    assert (Hparse : DriverV2.parsePacket stack packetHex
                     = DriverV2.printPacket stack).
    { unfold DriverV2.parsePacket.
      rewrite (DriverFacts.short_string_empty packetHex Hshort).
      reflexivity. }
    split; [exact Hparse |]. intros Hok. rewrite Hparse.
    destruct (DriverFacts.printPacket_defined stack ltac:(lia))
      as (ff & line & Hline & Hres & _ & Htext).
    exists ff, line. split; [exact Hline |].
    pose proof (Verdict.all_stages protCRC32 Fields.protCRC32_span stack
                  ltac:(lia)) as Hall.
    fold checkImuProtBuffer in Hall. rewrite Hall in Hok.
    injection Hok as Hok. rewrite Hok in Hres.
    split; [exact Hres | apply Htext, Hres].
Qed.

Lemma driver_v2_edge_inputs_witness :
  exists ff line,
    DriverV2.parsePacket (sample_packet ++ repeat x00 216) "7"
    = Some (ff, line) /\
    ln_result line = 0 /\
    ln_text line = "OK."%string.
Proof.
  apply (proj2 (driver_v2_edge_inputs (sample_packet ++ repeat x00 216) "7"
                  eq_refl)).
  - vm_compute. lia.
  - vm_compute. reflexivity.
Defined.

Module DriverV1Facts.
Import Driver.

(** Fewer than four stored bytes: [size - 4] wraps, and as an
    [unsigned short] length asks for more than 65531 bytes. *)
Lemma wrapped_length (n : nat) :
  (n < 4)%nat ->
  u16 ((Z.of_nat n - 4) mod 2 ^ 64) = 65532 + Z.of_nat n.
Proof.
  intros Hn.
  destruct n as [| [| [| [| n]]]]; try lia; vm_compute; reflexivity.
Qed.

Lemma plain_length (n : nat) :
  (4 <= n <= 128)%nat ->
  Z.to_nat (u16 ((Z.of_nat n - 4) mod 2 ^ 64)) = (n - 4)%nat.
Proof.
  intros Hn. unfold u16.
  rewrite (Z.mod_small (Z.of_nat n - 4) (2 ^ 64))
    by (change (2 ^ 64) with 18446744073709551616; lia).
  rewrite Z.mod_small by (change (2 ^ 16) with 65536; lia).
  lia.
Qed.

Lemma protCRC32_of_prefix (a b : list byte) (len : Z) :
  firstn (Z.to_nat (u16 len)) a = firstn (Z.to_nat (u16 len)) b ->
  protCRC32 a len = protCRC32 b len.
Proof.
  intros H. rewrite <- (CrcLoops.protCRC32_firstn a len).
  rewrite <- (CrcLoops.protCRC32_firstn b len), H. reflexivity.
Qed.

End DriverV1Facts.

(** X15. The first driver sums its check value over [size - 4] bytes.
    With fewer than four spelled bytes that length wraps around and the
    sum runs off the 128-byte array. With 40 to 128 spelled bytes the
    line does not depend on what the array held and the check value is
    the CRC32 of the first [size - 4] spelled bytes. With exactly 40
    spelled bytes and verdict 0 it equals the printed CRC field; with
    more bytes it need not: the sample packet followed by a zero byte is
    printed with verdict 0 and two different values. *)
Theorem driver_v1_check_value (stack : list byte) (packet : string) :
  List.length stack = 128%nat ->
  ((List.length (hexStringToByteArray packet) < 4)%nat ->
   DriverV1.parsePacket stack packet = None) /\
  ((40 <= List.length (hexStringToByteArray packet) <= 128)%nat ->
   exists line,
     DriverV1.parsePacket stack packet
     = Some (Z.of_nat (List.length (hexStringToByteArray packet)), line) /\
     protCRC32 (hexStringToByteArray packet)
       (Z.of_nat (List.length (hexStringToByteArray packet)) - 4)
     = Some (ln_check line) /\
     ln_result line
     = error_code (Wire.verdict (firstn 40 (hexStringToByteArray packet))) /\
     (List.length (hexStringToByteArray packet) = 40%nat ->
      ln_result line = 0 -> ln_crc32 line = ln_check line)) /\
  (exists line,
      DriverV1.parsePacket (repeat x00 128) (sample_packet_hex ++ "00")
      = Some (41, line) /\
      ln_result line = 0 /\ ln_crc32 line <> ln_check line).
Proof.
  intros Hstack.
  set (written := hexStringToByteArray packet).
  split; [| split].
  - intros Hshort. unfold DriverV1.parsePacket. fold written.
    destruct (Driver.store_fits stack written ltac:(lia))
      as (buffer & -> & Hblen & _).
    cbn [bind]. unfold protCRC32.
    rewrite Extent.table_loop_short; [reflexivity |].
    rewrite (DriverV1Facts.wrapped_length _ Hshort). lia.
  - intros [Hmin Hmax]. unfold DriverV1.parsePacket. fold written.
    destruct (Driver.store_fits stack written ltac:(lia))
      as (buffer & -> & Hblen & Hpre).
    cbn [bind].
    pose proof (DriverV1Facts.plain_length (List.length written) ltac:(lia))
      as Hplain.
    assert (Hsame : protCRC32 buffer ((Z.of_nat (List.length written) - 4) mod 2 ^ 64)
                    = protCRC32 written (Z.of_nat (List.length written) - 4)).
    { rewrite <- (CrcLoops.protCRC32_firstn buffer), Hplain.
      rewrite (Hpre (List.length written - 4)%nat ltac:(lia)).
      rewrite <- (CrcLoops.protCRC32_firstn written
                    (Z.of_nat (List.length written) - 4)).
      assert (Hu : Z.to_nat (u16 (Z.of_nat (List.length written) - 4))
                   = (List.length written - 4)%nat).
      { unfold u16. rewrite Z.mod_small by (change (2 ^ 16) with 65536; lia).
        lia. }
      rewrite Hu. unfold protCRC32. rewrite Hplain, Hu. reflexivity. }
    rewrite Hsame.
    destruct (CrcLoops.protCRC32_total written
                (Z.of_nat (List.length written) - 4)) as (crc & _ & Hcrc).
    { unfold u16. rewrite Z.mod_small by (change (2 ^ 16) with 65536; lia).
      lia. }
    rewrite Hcrc. cbn [bind].
    rewrite <- Driver.packet_fields_prefix, (Hpre 40%nat Hmin).
    destruct (Driver.packet_fields_defined (firstn 40 written) crc)
      as (line & -> & Hres & Hchk & Hst & _).
    { rewrite length_firstn. lia. }
    cbn [bind]. exists line. split; [reflexivity |].
    rewrite Hchk. split; [reflexivity |]. split; [exact Hres |].
    intros H40 Hok.
    rewrite H40 in Hcrc. change (Z.of_nat 40 - 4) with 36 in Hcrc.
    rewrite <- (CrcLoops.protCRC32_firstn written 36) in Hcrc.
    change (Z.to_nat (u16 36)) with 36%nat in Hcrc.
    assert (Hw : firstn 40 written = written)
      by (apply firstn_all2; lia).
    rewrite Hw in *. rewrite Hres in Hok.
    pose proof (Driver.valid_columns written crc ltac:(lia) Hok Hcrc) as Hv.
    rewrite Hst in Hv. congruence.
  - eexists. split; [vm_compute; reflexivity |].
    split; [reflexivity |]. vm_compute. discriminate.
Qed.

Lemma driver_v1_check_value_witness :
  DriverV1.parsePacket (repeat xff 128) "749522" = None.
Proof.
  apply (proj1 (driver_v1_check_value (repeat xff 128) "749522" eq_refl)).
  vm_compute. lia.
Defined.

(** ** The identity block and the checksum table *)

(** X16. [ImuDataMux_t] occupies 128 bytes, the size of its 32 words,
    with [PACK_IT] effective or empty; its named members fill the first
    52 bytes without padding, the ten 32-bit ones at offsets 0 to 36, the
    version at 40 and the five 16-bit ones after it at 42 to 50. *)
Theorem identity_block_layout (PACK_IT : bool) :
  sizeof (ImuDataMux_t PACK_IT) = 128%nat /\
  map (extent (ImuDataMux_t PACK_IT))
      [ [""]; ["ui32"]; ["ui16"]; ["ui8"];
        [""; "serialNoHi"]; [""; "rev"]; [""; "tempExt"]; [""; "tempInt"];
        [""; "presExt"]; [""; "power"]; [""; "serialId"];
        [""; "humanSerial"]; [""; "current"]; [""; "gitShort"];
        [""; ""; "version"]; [""; ""; ""];
        [""; "revision"]; [""; "buildDate"]; [""; "hwType"];
        [""; "packetRate"]; [""; "reserved"] ]%string
  = [ Some (0, 52); Some (0, 128); Some (0, 0); Some (0, 0);
      Some (0, 4); Some (4, 4); Some (8, 4); Some (12, 4);
      Some (16, 4); Some (20, 4); Some (24, 4);
      Some (28, 4); Some (32, 4); Some (36, 4);
      Some (40, 2); Some (40, 2);
      Some (42, 2); Some (44, 2); Some (46, 2);
      Some (48, 2); Some (50, 2) ]%nat.
Proof. destruct PACK_IT; split; reflexivity. Qed.

(** X17. The checksum table is the one the polynomial generates: it has
    256 entries, and entry [i] is the result of the eight shift steps of
    the bit-wise build applied to [i]. *)
Theorem table_is_generated :
  List.length crc32_ccitt_table = 256%nat /\
  forall i : Z,
    0 <= i < 256 ->
    table_at i = SoftCrc.crc_bits 8 i /\ in_u32 (table_at i).
Proof.
  split; [reflexivity |]. intros i Hi.
  rewrite <- CrcAgreement.table_entries by exact Hi.
  split; [reflexivity |].
  apply CrcAgreement.crc_bits_range, in_u8_u32. exact Hi.
Qed.

Lemma table_is_generated_witness :
  table_at 128 = SoftCrc.crc_bits 8 128 /\ table_at 128 = CRC32_POLYNOM.
Proof.
  split.
  - apply (proj2 table_is_generated 128). vm_compute. split; congruence.
  - reflexivity.
Defined.

(** ** Bursts of damage *)

Module Bursts.
Import Corruption.

Lemma lsb_first_ext (n : nat) :
  forall x y : Z,
    (forall i, 0 <= i < Z.of_nat n -> Z.testbit x i = Z.testbit y i) ->
    Reference.lsb_first n x = Reference.lsb_first n y.
Proof.
  induction n as [| n IH]; intros x y Hbits; [reflexivity |].
  cbn [Reference.lsb_first]. f_equal.
  - rewrite <- !Z.bit0_odd. apply Hbits. lia.
  - apply IH. intros i Hi. rewrite !Z.shiftr_spec by lia. apply Hbits. lia.
Qed.

Lemma lsb_first_app (a b : nat) :
  forall z : Z,
    Reference.lsb_first (a + b) z
    = Reference.lsb_first a z ++ Reference.lsb_first b (Z.shiftr z (Z.of_nat a)).
Proof.
  induction a as [| a IH]; intros z.
  - cbn [Nat.add Reference.lsb_first app]. rewrite Z.shiftr_0_r. reflexivity.
  - cbn [Nat.add Reference.lsb_first app]. rewrite IH.
    rewrite Z.shiftr_shiftr by lia.
    replace (1 + Z.of_nat a) with (Z.of_nat (S a)) by lia. reflexivity.
Qed.

Lemma lsb_first_zero (n : nat) : Reference.lsb_first n 0 = repeat false n.
Proof.
  induction n as [| n IH]; [reflexivity |].
  cbn [Reference.lsb_first repeat]. rewrite Z.shiftr_0_l, IH. reflexivity.
Qed.

Lemma lsb_first_shiftl (k : nat) :
  forall (n : nat) (v : Z),
    Reference.lsb_first (k + n) (Z.shiftl v (Z.of_nat k))
    = repeat false k ++ Reference.lsb_first n v.
Proof.
  induction k as [| k IH]; intros n v.
  - cbn [Nat.add repeat app]. rewrite Z.shiftl_0_r. reflexivity.
  - cbn [Nat.add Reference.lsb_first repeat app]. f_equal.
    + rewrite <- Z.bit0_odd. apply Z.shiftl_spec_low. lia.
    + rewrite Z.shiftr_shiftl_l by lia.
      replace (Z.of_nat (S k) - 1) with (Z.of_nat k) by lia. apply IH.
Qed.

Lemma octet_bits_low (z : Z) :
  Reference.octet_bits (byte_to_Z (byte_of_Z z)) = Reference.lsb_first 8 z.
Proof.
  unfold Reference.octet_bits. rewrite byte_to_of_Z. unfold u8.
  apply lsb_first_ext. intros i Hi.
  apply Z.mod_pow2_bits_low. lia.
Qed.

(** The message bits of a little-endian integer are its bits. *)
Lemma message_bits_le (n : nat) :
  forall z : Z,
    Reference.message_bits (le_bytes n z) = Reference.lsb_first (8 * n) z.
Proof.
  induction n as [| n IH]; intros z; [reflexivity |].
  replace (8 * S n)%nat with (8 + 8 * n)%nat by lia.
  rewrite lsb_first_app.
  cbn [le_bytes Reference.message_bits flat_map].
  rewrite octet_bits_low. f_equal. apply IH.
Qed.

Lemma le_bytes_length (n : nat) :
  forall z, List.length (le_bytes n z) = n.
Proof. induction n as [| n IH]; intros z; simpl; [| rewrite IH]; reflexivity. Qed.

(** The bits of a burst: zeros, the word, zeros. *)
Lemma burst_bits (k : nat) (v : Z) :
  (k + 32 <= 320)%nat -> 0 <= v < 2 ^ 32 ->
  Reference.message_bits (burst k v)
  = repeat false k ++ Reference.lsb_first 32 v ++ repeat false (288 - k).
Proof.
  intros Hk Hv. unfold burst, Wire.packet_size.
  rewrite message_bits_le.
  replace (8 * 40)%nat with (k + (32 + (288 - k)))%nat by lia.
  rewrite lsb_first_shiftl, lsb_first_app.
  replace (Z.shiftr v (Z.of_nat 32)) with 0.
  - rewrite lsb_first_zero. reflexivity.
  - symmetry. rewrite Z.shiftr_div_pow2 by lia. apply Z.div_small. exact Hv.
Qed.

Lemma idle_register (k : nat) :
  fold_left Reference.shift_in (repeat false k) 0 = 0.
Proof. induction k as [| k IH]; [reflexivity | exact IH]. Qed.

Lemma clocked_register (m : nat) :
  forall r : Z,
    in_u32 r ->
    fold_left Reference.shift_in (repeat false m) r = SoftCrc.crc_bits m r.
Proof.
  induction m as [| m IH]; intros r Hr; [reflexivity |].
  cbn [repeat fold_left SoftCrc.crc_bits].
  assert (Hstep : Reference.shift_in r false = SoftCrc.crc_bit r).
  { rewrite CrcReference.shift_in_spec, CrcAgreement.crc_bit_spec by exact Hr.
    rewrite xorb_false_r. reflexivity. }
  rewrite Hstep. apply IH, CrcAgreement.crc_bit_range, Hr.
Qed.

(** The register a burst leaves is never zero. *)
Lemma burst_register (k : nat) (v : Z) :
  (k + 32 <= 320)%nat -> 0 < v < 2 ^ 32 ->
  fold_left Reference.shift_in (Reference.message_bits (burst k v)) 0 <> 0.
Proof.
  intros Hk Hv.
  assert (Hv32 : in_u32 v) by (unfold in_u32; lia).
  assert (Hzero : in_u32 0) by (vm_compute; split; congruence).
  rewrite burst_bits by (try lia; exact Hk).
  rewrite !fold_left_app, idle_register.
  rewrite (CrcReference.feed_bits 32 0 v) by (try lia; assumption).
  rewrite Z.lxor_0_l.
  rewrite clocked_register by (apply CrcAgreement.crc_bits_range, Hv32).
  intros H.
  apply ResidueCheck.crc_bits_zero in H;
    [| apply CrcAgreement.crc_bits_range, Hv32].
  apply ResidueCheck.crc_bits_zero in H; [lia | exact Hv32].
Qed.

(** A pattern that passes leaves the register at zero. *)
Lemma passing_pattern_register (e : list byte) :
  List.length e = 40%nat ->
  error_verdict e = IMU_PROT_OK ->
  fold_left Reference.shift_in (Reference.message_bits e) 0 = 0.
Proof.
  intros Hlen Hok.
  assert (Hzero : in_u32 0) by (vm_compute; split; congruence).
  pose proof (Flips.passing_pattern_syndrome e Hok) as Hsyn.
  unfold pattern_syndrome in Hsyn. rewrite crc_linear_loop in Hsyn.
  change (Z.to_nat (u16 36)) with 36%nat in Hsyn.
  assert (H36 : List.length (firstn 36 e) = 36%nat)
    by (rewrite length_firstn; lia).
  destruct (crc_loop_defined 36 (firstn 36 e) 0 ltac:(lia)) as [l Hl].
  destruct (Verdict.stored_crc_defined e ltac:(lia)) as [stored Hst].
  rewrite Hl, Hst in Hsyn. apply Z.lxor_eq in Hsyn. subst stored.
  pose proof (crc_loop_range _ _ _ _ Hzero Hl) as Hlr.
  assert (Hreg : SoftCrc.crc_loop e 40 0 = Some 0).
  { rewrite (ResidueCheck.packet_split e l Hlen Hst).
    pose proof (Residue.crc_loop_app (firstn 36 e) (le32 l) 4 0) as Happ.
    rewrite H36 in Happ. change (36 + 4)%nat with 40%nat in Happ.
    rewrite Happ, Hl, Residue.crc_loop_le32 by assumption.
    rewrite Z.lxor_nilpotent. reflexivity. }
  pose proof (CrcReference.crc_loop_reference e 0 Hzero) as Href.
  rewrite Hlen, Hreg in Href.
  apply ResidueCheck.some_eq in Href. symmetry. exact Href.
Qed.

End Bursts.

(** X18. Damage confined to 32 consecutive bits is always detected: a
    valid 40-byte packet with any non-zero 32-bit word added in at any
    bit offset is never answered [IMU_PROT_OK]. *)
Theorem burst_detected (buffer : list byte) (k : nat) (v : Z) :
  List.length buffer = Wire.packet_size ->
  checkImuProtBuffer buffer = Some IMU_PROT_OK ->
  (k + 32 <= 8 * Wire.packet_size)%nat ->
  0 < v < 2 ^ 32 ->
  exists verdict,
    checkImuProtBuffer (xor_bytes buffer (burst k v)) = Some verdict /\
    verdict <> IMU_PROT_OK.
Proof.
  unfold Wire.packet_size. intros Hlen Hok Hk Hv.
  assert (He : List.length (burst k v) = 40%nat)
    by apply Bursts.le_bytes_length.
  exists (error_verdict (burst k v)). split.
  - apply Flips.check_damaged; assumption.
  - intros Hpass.
    apply (Bursts.burst_register k v); [lia | exact Hv |].
    apply Bursts.passing_pattern_register; assumption.
Qed.

Lemma burst_detected_witness :
  exists verdict,
    checkImuProtBuffer (xor_bytes sample_packet (burst 77 0x80000001))
    = Some verdict /\
    verdict <> IMU_PROT_OK.
Proof.
  apply (burst_detected sample_packet 77 0x80000001);
    vm_compute; first [reflexivity | lia | split; reflexivity].
Defined.

(** ** Sealing a packet *)

Module Seal.
Import Corruption.

Lemma le32_stored (data : list byte) (v : Z) :
  List.length data = 36%nat -> in_u32 v ->
  Wire.stored_crc (data ++ le32 v) = Some v.
Proof.
  intros Hlen Hv. unfold Wire.stored_crc.
  rewrite skipn_app, skipn_all2 by lia.
  rewrite Hlen. cbn [Nat.sub skipn app]. unfold le32. cbn [map firstn].
  rewrite !byte_to_of_Z. unfold u8. rewrite !Z.shiftr_div_pow2 by lia.
  f_equal. unfold in_u32 in Hv.
  change (2 ^ (8 * 0)) with 1. change (2 ^ (8 * 1)) with 256.
  change (2 ^ (8 * 2)) with 65536. change (2 ^ (8 * 3)) with 16777216.
  change (2 ^ 8) with 256. change (2 ^ 16) with 65536.
  change (2 ^ 24) with 16777216. change (2 ^ 32) with 4294967296 in Hv.
  Z.div_mod_to_equations. lia.
Qed.

Lemma nth_error_front (data tail : list byte) (i : nat) :
  (i < List.length data)%nat ->
  nth_error (data ++ tail) i = nth_error data i.
Proof. intros Hi. apply nth_error_app1, Hi. Qed.

End Seal.

(** X19. Every well-formed packet is accepted: 36 bytes that begin with
    the header 0x9574 and a sequencer byte with its complement, followed
    by their own CRC32 in wire order, are answered [IMU_PROT_OK] whatever
    the 32 bytes of identity, flags and samples hold. *)
Theorem sealed_packet_accepted (data : list byte) :
  List.length data = 36%nat ->
  Wire.header_ok data = true ->
  Wire.sequencer_ok data = true ->
  exists crc,
    protCRC32 data 36 = Some crc /\
    checkImuProtBuffer (data ++ le32 crc) = Some IMU_PROT_OK /\
    SoftBuild.checkImuProtBuffer (data ++ le32 crc) = Some IMU_PROT_OK.
Proof.
  intros Hlen Hhdr Hseq.
  destruct (CrcLoops.protCRC32_total data 36) as (crc & Hrange & Hcrc).
  { change (Z.to_nat (u16 36)) with 36%nat. lia. }
  exists crc. split; [exact Hcrc |].
  assert (Hfull : (40 <= List.length (data ++ le32 crc))%nat)
    by (rewrite length_app, Hlen; cbn; lia).
  pose proof (Verdict.all_stages protCRC32 Fields.protCRC32_span _ Hfull)
    as Hall.
  fold checkImuProtBuffer in Hall.
  rewrite Verdict.builds_agree, Hall.
  unfold Wire.verdict, Wire.header_ok, Wire.sequencer_ok, Wire.crc_ok in *.
  rewrite !Seal.nth_error_front by lia.
  rewrite Hhdr, Hseq. cbn [negb].
  rewrite firstn_app, firstn_all2 by lia.
  rewrite Hlen. cbn [Nat.sub firstn]. rewrite app_nil_r.
  rewrite Hcrc, (Seal.le32_stored data crc Hlen Hrange), Z.eqb_refl.
  split; reflexivity.
Qed.

Lemma sealed_packet_accepted_witness :
  exists crc,
    protCRC32 (firstn 36 sample_packet) 36 = Some crc /\
    checkImuProtBuffer (firstn 36 sample_packet ++ le32 crc)
    = Some IMU_PROT_OK /\
    SoftBuild.checkImuProtBuffer (firstn 36 sample_packet ++ le32 crc)
    = Some IMU_PROT_OK.
Proof.
  apply (sealed_packet_accepted (firstn 36 sample_packet));
    vm_compute; reflexivity.
Defined.
